(** * ABSESpy: mediator, human module, random helper and raster layer

    A shallow embedding of the Python sources
      - [abses/mediator.py]  (MainMediator),
      - [abses/human.py]     (HumanModule),
      - [abses/random.py]    (ListRandom),
      - [abses/nature.py]    (PatchModule),
    followed by the properties stated about them.

    Python objects that are mutated in place live in explicit state
    records; exceptions are values of [exn] carried by [res]; a method
    is a function in the state-and-exception monad [M]. *)

From Stdlib Require Import ZArith Lia Ascii Uint63 PrimFloat.
From stdpp Require Import gmap strings list sorting pretty.

Open Scope Z_scope.

(** ** Python exceptions and the state-and-exception monad *)

Inductive exn : Type :=
  | ValueError
  | TypeError
  | IndexError
  | KeyError
  | AttributeError
  | ReferenceError
  | ABSESpyError.

Inductive res (A : Type) : Type :=
  | Ok (a : A)
  | Raise (e : exn).
Arguments Ok {A} a.
Arguments Raise {A} e.

(** A method body: it reads and updates the state [S]; when it raises,
    the state reached so far is kept, as in Python. *)
Definition M (S A : Type) : Type := S → res A * S.

#[global] Instance M_ret {S} : MRet (M S) := λ A a s, (Ok a, s).
#[global] Instance M_bind {S} : MBind (M S) := λ A B k m s,
  match m s with
  | (Ok a, s') => k a s'
  | (Raise e, s') => (Raise e, s')
  end.

#[global] Instance res_ret : MRet res := λ A a, Ok a.
#[global] Instance res_bind : MBind res := λ A B k r,
  match r with
  | Ok a => k a
  | Raise e => Raise e
  end.

Definition raise {S A} (e : exn) : M S A := λ s, (Raise e, s).
Definition get {S} : M S S := λ s, (Ok s, s).
Definition lift {S A} (r : res A) : M S A := λ s, (r, s).

(** [for x in l: body x] *)
Fixpoint for_each {S A} (l : list A) (body : A → M S unit) : M S unit :=
  match l with
  | [] => mret tt
  | x :: l' => body x ≫= λ _, for_each l' body
  end.

(** [for x in l: acc = body x acc], for a loop that updates a local
    variable. *)
Fixpoint for_fold {S A B} (l : list A) (acc : B) (body : A → B → M S B)
  : M S B :=
  match l with
  | [] => mret acc
  | x :: l' => acc' ← body x acc; for_fold l' acc' body
  end.

(** [[f x for x in l]] *)
Fixpoint list_comp {S A B} (l : list A) (f : A → M S B) : M S (list B) :=
  match l with
  | [] => mret []
  | x :: l' => y ← f x; ys ← list_comp l' f; mret (y :: ys)
  end.

(** [range(n)] *)
Definition range (n : Z) : list Z := Z.of_nat <$> seq 0 (Z.to_nat n).

(** [range(a, b)] *)
Definition range2 (a b : Z) : list Z :=
  (λ i, a + Z.of_nat i) <$> seq 0 (Z.to_nat (b - a)).

(** [l[i]] on a Python list: a negative index counts from the end, an
    index outside [-len, len) raises IndexError. *)
Definition py_index {A} (l : list A) (i : Z) : res A :=
  let n := Z.of_nat (length l) in
  let j := if decide (i < 0) then i + n else i in
  if decide (0 ≤ j < n) then
    match l !! Z.to_nat j with
    | Some a => Ok a
    | None => Raise IndexError
    end
  else Raise IndexError.

(** ** abses/mediator.py *)

Module Mediator.

(** Object references.  A reference carries the identity of the object
    and the class the object was created from; [is_] is Python's [is]. *)
Inductive pyclass : Type :=
  | MainModel
  | BaseHuman
  | BaseNature
  | Actor
  | OtherClass.

#[global] Instance pyclass_eq_dec : EqDecision pyclass.
Proof. solve_decision. Defined.

Record pyref : Type := { oid : nat; cls : pyclass }.

#[global] Instance pyref_eq_dec : EqDecision pyref.
Proof. solve_decision. Defined.

Definition is_ (a b : pyref) : bool := bool_decide (a = b).

(** [isinstance(o, Actor)]: [Actor] stands for the class and its
    subclasses. *)
Definition isinstance_Actor (o : pyref) : bool :=
  match cls o with Actor => true | _ => false end.

(** Modelled from the spec: the [States] base class of [abses/states.py]
    is not among the sources.  A component has a state code; the
    [state] property is written with a code ([user.state = state_code],
    [self.model.state = 1]) and read as the name of the component's
    code in the [STATES] table ([_states_are("new")],
    [_states_are("init")]).  What writing does is left open: see
    [assign_state] below. *)
Record component : Type := {
  comp_id : nat;
  name : string;
  _state : Z;
}.

(** The component [u] with the state code [code]. *)
Definition with_code (code : Z) (u : component) : component :=
  {| comp_id := comp_id u; name := name u; _state := code |}.

(** The three users of a mediator, in the order of [USERS]. *)
Inductive user : Type :=
  | TheModel
  | TheHuman
  | TheNature.

#[global] Instance user_eq_dec : EqDecision user.
Proof. solve_decision. Defined.

(** [self.users = Users(model=..., human=..., nature=...)] with the
    field order of [USERS = ("model", "human", "nature")]. *)
Record MainMediator : Type := {
  model : component;
  human : component;
  nature : component;
  sender : option string;
}.

Definition users (m : MainMediator) : list component :=
  [model m; human m; nature m].

Definition component_of (u : user) (m : MainMediator) : component :=
  match u with
  | TheModel => model m
  | TheHuman => human m
  | TheNature => nature m
  end.

(** The constructor's annotations fix the classes of the three bound
    components. *)
Definition model_ref (m : MainMediator) : pyref :=
  {| oid := comp_id (model m); cls := MainModel |}.
Definition human_ref (m : MainMediator) : pyref :=
  {| oid := comp_id (human m); cls := BaseHuman |}.
Definition nature_ref (m : MainMediator) : pyref :=
  {| oid := comp_id (nature m); cls := BaseNature |}.

Section mediator.

(** The [STATES] table of [abses/states.py] (state code to state
    name) is a parameter. *)
Variable STATES : gmap Z string.

(** The value returned by [nature.get_patch(attr, **kwargs)], whatever
    it is, and the keyword arguments passed through to it. *)
Variable pyval : Type.
Variable kwargs : Type.
Variable get_patch : string → kwargs → res pyval.

(** [user.state = code], for one of the three users.  What the setter
    of the state property does is not decided in [mediator.py]: it may
    store the code, refuse it with an exception, and notify the
    mediator, whose handlers change states in turn.  It is a parameter:
    any change of the mediator's state, or an exception. *)
Variable assign_state : user → Z → M MainMediator unit.

(** [user.state]: the name that [STATES] gives to the component's
    code. *)
Definition get_state (u : component) : res string :=
  match STATES !! _state u with
  | Some s => Ok s
  | None => Raise KeyError
  end.

(** [for user in self.users: user.state = state_code] *)
Definition set_all_states (code : Z) : M MainMediator unit :=
  for_each [TheModel; TheHuman; TheNature]
    (λ user, assign_state user code).

Definition _states_are (state : string) (how : string)
  : M MainMediator bool :=
  m ← get;
  states ← list_comp (users m)
    (λ user, s ← lift (get_state user); mret (bool_decide (s = state)));
  if decide (how = "all") then mret (forallb id states)
  else if decide (how = "any") then mret (existsb id states)
  else raise ValueError.

Definition _change_state (state_code : Z) : M MainMediator bool :=
  match STATES !! state_code with
  | None => raise ValueError
  | Some state_name =>
      _ ← set_all_states state_code;
      _states_are state_name "all"
  end.

(** The mediator that [MainMediator.__init__] has bound to its three
    components, before its last statement. *)
Definition bound (mo hu na : component) : MainMediator :=
  {| model := mo; human := hu; nature := na; sender := None |}.

(** [MainMediator.__init__]; the back references
    [model.mediator = self] and the logger name carry no state of
    their own here.  The result of [_change_state(0)] is dropped. *)
Definition __init__ (mo hu na : component) : res MainMediator :=
  match _change_state 0 (bound mo hu na) with
  | (Ok _, self') => Ok self'
  | (Raise e, _) => Raise e
  end.

Definition set_sender (s : string) : M MainMediator unit := λ m,
  (Ok tt,
   {| model := model m; human := human m; nature := nature m;
      sender := Some s |}).

Definition _check_sender (snd : pyref) : M MainMediator unit :=
  m ← get;
  if is_ snd (model_ref m) then set_sender "model"
  else if is_ snd (human_ref m) then set_sender "human"
  else if is_ snd (nature_ref m) then set_sender "nature"
  else if isinstance_Actor snd then set_sender "agent"
  else raise TypeError.

(** [any([self.sender == arg for arg in args])] *)
Definition sender_matches (args : list string) : M MainMediator bool :=
  m ← get (S := MainMediator);
  mret (existsb id ((λ arg, bool_decide (sender m = Some arg)) <$> args)).

Definition transfer_request (snd : pyref) (attr : string) (kw : kwargs)
  : M MainMediator (option pyval) :=
  _ ← _check_sender snd;
  b ← sender_matches ["agent"; "human"];
  if b : bool then v ← lift (get_patch attr kw); mret (Some v)
  else mret None.

End mediator.

(** *** Vocabulary of the statements *)

(** The three users are in the state named [nm]. *)
Definition share_state (STATES : gmap Z string) (nm : string)
    (m : MainMediator) : Prop :=
  ∀ u, u ∈ users m → get_state STATES u = Ok nm.

(** The senders [_check_sender] accepts. *)
Definition known_sender (m : MainMediator) (s : pyref) : Prop :=
  s = model_ref m ∨ s = human_ref m ∨ s = nature_ref m
  ∨ isinstance_Actor s = true.

(** A table with the state names that [mediator.py] itself uses
    ([_new], [_init], [_ready], [_complete]), and three components that
    wait for a mediator, for the examples. *)
Definition example_states : gmap Z string :=
  {[ 0 := "new"; 1 := "init"; 2 := "ready"; 3 := "complete" ]}.

Definition waiting (id : nat) (nm : string) : component :=
  {| comp_id := id; name := nm; _state := -1 |}.

(** A state property that refuses what the [States] class of the
    package refuses: a code that is not in [STATES] (ValueError), the
    code that the component already has (ValueError, "Setting state
    repeat") and a code below it (ValueError); any other code is
    stored.  (After storing, the setter of the package also notifies
    the mediator; that plays no part where the code is refused.) *)
Definition refusing_setter (STATES : gmap Z string) (u : user) (code : Z)
  : M MainMediator unit := λ m,
  let old := _state (component_of u m) in
  if bool_decide (code ∉ dom STATES) || bool_decide (code = old)
     || bool_decide (code < old)
  then (Raise ValueError, m)
  else
    (Ok tt,
     match u with
     | TheModel =>
         {| model := with_code code (model m); human := human m;
            nature := nature m; sender := sender m |}
     | TheHuman =>
         {| model := model m; human := with_code code (human m);
            nature := nature m; sender := sender m |}
     | TheNature =>
         {| model := model m; human := human m;
            nature := with_code code (nature m); sender := sender m |}
     end).

(** A mediator whose three users have parsed their parameters: each is
    in state 1, "init". *)
Definition all_init : MainMediator :=
  {| model := {| comp_id := 1; name := "model"; _state := 1 |};
     human := {| comp_id := 2; name := "human"; _state := 1 |};
     nature := {| comp_id := 3; name := "nature"; _state := 1 |};
     sender := None |}.

(** [transfer_request] when the sender asks on behalf of an agent or of
    the human module: whatever [get_patch] does. *)
Definition forwarded {pyval} (r : res pyval) : res (option pyval) :=
  match r with
  | Ok v => Ok (Some v)
  | Raise e => Raise e
  end.

End Mediator.

(** ** abses/human.py *)

Module Human.

(** What reading an attribute of a [HumanModule] can give; [Stored] is
    what the [DictConfig] of saved selections holds. *)
Inductive pyvalue (Actor Stored : Type) : Type :=
  | VActorsList (l : list Actor)
  | VContainer (l : list Actor)
  | VCollections (c : gmap string Stored)
  | VBoundMethod (name : string)
  | VInherited (name : string).
Arguments VActorsList {Actor Stored} l.
Arguments VContainer {Actor Stored} l.
Arguments VCollections {Actor Stored} c.
Arguments VBoundMethod {Actor Stored} name.
Arguments VInherited {Actor Stored} name.

(** One call [target.trigger(what, arg)]. *)
Record trigger_call (Actors Trigger : Type) : Type := TriggerCall {
  target : Actors;
  what : Trigger;
  arg : Actors;
}.
Arguments TriggerCall {Actors Trigger} target what arg.
Arguments target {Actors Trigger} t.
Arguments what {Actors Trigger} t.
Arguments arg {Actors Trigger} t.

Section human.

Variable Actor : Type.
Variable Selection : Type.

(** [ActorsList.select] ([abses/sequences.py], not among the
    sources): a query evaluated over a list of actors. *)
Variable select : list Actor → Selection → res (list Actor).

(** [self._collections] is an omegaconf [DictConfig], not a [dict]:
    assigning a value wraps it in a node of the configuration, reading
    gives the value of the node, and a key whose node is the missing
    marker does not count as contained.  The library is not among the
    sources; its three operations are parameters:
    - [dictconfig_node sel]: the node that [cfg[name] = sel] stores (a
      list becomes a [ListConfig], a dict a [DictConfig]), or the
      exception raised for a value of an unsupported type;
    - [dictconfig_missing n]: whether [name in cfg] is False although
      the node [n] is stored under [name];
    - [dictconfig_value n]: what [cfg[name]] gives for the node [n] (a
      string comes back as it was unless it is an interpolation, a
      list comes back as the [ListConfig]), or the exception raised. *)
Variable Stored : Type.
Variable dictconfig_node : Selection → res Stored.
Variable dictconfig_missing : Stored → bool.
Variable dictconfig_value : Stored → res Selection.

(** The names that ordinary attribute lookup finds in the base class
    [Module] and in what [Module.__init__] sets on the instance, and
    [Module]'s answer to [super().__getattr__(name)]. *)
Variable inherited : string → bool.
Variable super_getattr : string → res (pyvalue Actor Stored).

(** [HumanModule]: [_agents] is the container, seen through
    [to_list()]; [_collections] holds the saved selections. *)
Record HumanModule : Type := {
  _agents : list Actor;
  _collections : gmap string Stored;
}.

(** [self.actors], that is [self.agents.to_list()] *)
Definition actors (h : HumanModule) : list Actor := _agents h.

(** [name[0] == "_"] *)
Definition first_is_underscore (name : string) : res bool :=
  match name with
  | EmptyString => Raise IndexError
  | String c _ => Ok (bool_decide (c = "_"%char))
  end.

(** [name in self._collections] *)
Definition contains (h : HumanModule) (name : string) : bool :=
  match _collections h !! name with
  | Some n => negb (dictconfig_missing n)
  | None => false
  end.

Definition __getattr__ (name : string)
  : M HumanModule (pyvalue Actor Stored) :=
  h ← get;
  u ← lift (first_is_underscore name);
  if (u : bool) || negb (contains h name) then
    lift (super_getattr name)
  else
    match _collections h !! name with
    | Some n =>
        selection ← lift (dictconfig_value n);
        l ← lift (select (actors h) selection); mret (VActorsList l)
    | None => raise KeyError
    end.

(** Ordinary attribute lookup on the instance and its class: the
    instance attributes set in [__init__], the properties and methods
    of [HumanModule], then what is inherited. *)
Definition lookup_normal (h : HumanModule) (name : string)
  : option (pyvalue Actor Stored) :=
  if decide (name = "_agents") then Some (VContainer (_agents h))
  else if decide (name = "_collections") then
    Some (VCollections (_collections h))
  else if decide (name = "_rules") then Some (VCollections ∅)
  else if decide (name = "agents") then Some (VContainer (_agents h))
  else if decide (name = "actors") then Some (VActorsList (actors h))
  else if decide (name ∈ ["__init__"; "__getattr__"; "define"; "arena";
                          "require"]) then Some (VBoundMethod name)
  else if inherited name then Some (VInherited name)
  else None.

(** [getattr(module, name)]: Python calls [__getattr__] only when the
    ordinary lookup finds nothing. *)
Definition read_attribute (name : string)
  : M HumanModule (pyvalue Actor Stored) :=
  h ← get;
  match lookup_normal h name with
  | Some v => mret v
  | None => __getattr__ name
  end.

(** [self._collections[name] = selection] *)
Definition store_selection (name : string) (selection : Selection)
  : M HumanModule unit := λ h,
  match dictconfig_node selection with
  | Ok n =>
      (Ok tt,
       {| _agents := _agents h;
          _collections := <[name := n]> (_collections h) |})
  | Raise e => (Raise e, h)
  end.

Definition define (name : string) (selection : Selection)
  : M HumanModule (list Actor) :=
  h ← get;
  selected ← lift (select (actors h) selection);
  _ ← store_selection name selection;
  mret selected.

(** The container's content changes as agents are created and die. *)
Definition with_agents (l : list Actor) (h : HumanModule) : HumanModule :=
  {| _agents := l; _collections := _collections h |}.

(** *** arena *)

Variable Actors : Type.
Variable Trigger : Type.
Variable World : Type.

(** [trigger] of [Actor] and [ActorsList] (not among the sources):
    what one call does to the rest of the program state. *)
Variable trigger_impl : trigger_call Actors Trigger → M World unit.

(** A call of [x.trigger(f, y)]: the call is recorded, then run. *)
Definition trigger (x : Actors) (f : Trigger) (y : Actors)
  : M (list (trigger_call Actors Trigger) * World) unit := λ '(log, w),
  let c := TriggerCall x f y in
  match trigger_impl c w with
  | (r, w') => (r, (log ++ [c], w'))
  end.

Definition arena (actor_1 actor_2 : Actors) (interaction : Trigger)
  : M (list (trigger_call Actors Trigger) * World) unit :=
  _ ← trigger actor_1 interaction actor_2;
  trigger actor_2 interaction actor_1.

End human.

(** *** Vocabulary of the statements *)

(** What reading a saved selection gives: the query evaluated over the
    actors the module holds at the time of the read. *)
Definition selected_now {Actor Selection Stored}
    (select : list Actor → Selection → res (list Actor))
    (current : list Actor) (sel : Selection)
  : res (pyvalue Actor Stored) :=
  l ← select current sel; mret (VActorsList l).

(** A selection that the [DictConfig] keeps as it is: it is stored,
    counts as contained and is read back unchanged.  (By the
    documentation of omegaconf this is so for a string that is neither
    an interpolation nor the missing marker, and not for a list.) *)
Definition kept_as_is {Selection Stored}
    (dictconfig_node : Selection → res Stored)
    (dictconfig_missing : Stored → bool)
    (dictconfig_value : Stored → res Selection)
    (sel : Selection) : Prop :=
  ∃ n, dictconfig_node sel = Ok n ∧ dictconfig_missing n = false
       ∧ dictconfig_value n = Ok sel.

(** A concrete module for the examples: actors are numbers, a selection
    is a bound, which the configuration keeps as it is, and selecting
    keeps the actors below the bound. *)
Definition select_below (l : list nat) (bound : nat) : res (list nat) :=
  Ok (filter (λ a, (a < bound)%nat) l).

Definition node_of_number (bound : nat) : res nat := Ok bound.
Definition never_missing (n : nat) : bool := false.
Definition value_of_number (n : nat) : res nat := Ok n.

Definition no_inherited (name : string) : bool := false.

Definition no_super_getattr (name : string) : res (pyvalue nat nat) :=
  Raise AttributeError.

Definition two_actors : HumanModule nat nat :=
  {| _agents := [1; 2]%nat; _collections := ∅ |}.

(** A trigger that counts how often it ran. *)
Definition counting_trigger (c : trigger_call nat string) : M nat unit :=
  λ n, (Ok tt, S n).

End Human.

(** ** abses/random.py *)

Module Random.

(** [itertools.combinations(l, 2)]: the pairs of positions [i < j], in
    lexicographic order of the positions. *)
Fixpoint combinations2 {A} (l : list A) : list (A * A) :=
  match l with
  | [] => []
  | a :: t => (pair a <$> t) ++ combinations2 t
  end.

(** A numpy [Generator]: the integers it will produce, and how many
    were consumed.  Every run of the real generator is one such tape. *)
Record Generator : Type := { tape : nat → nat; cursor : nat }.

(** An integer in [[0, n)]. *)
Definition integers_below (n : nat) : M Generator nat := λ g,
  (Ok (tape g (cursor g) `mod` n)%nat,
   {| tape := tape g; cursor := S (cursor g) |}).

(** The result of [choice]: one actor, or an [ActorsList]. *)
Inductive chosen (Actor : Type) : Type :=
  | Single (a : Actor)
  | Many (l : list Actor).
Arguments Single {Actor} a.
Arguments Many {Actor} l.

Section random.

Context {Actor : Type} `{Countable Actor}.

(** Probabilities are floating-point arrays: [clean_p] and numpy's
    weighted sampling are parameters. *)
Variable Prob : Type.
Variable clean_p : list Actor → Prob → res Prob.
Variable weighted_choice :
  list Actor → Z → bool → Prob → M Generator (list Actor).

Record ListRandom : Type := {
  actors : list Actor;
  generator : Generator;
}.

Definition on_generator {A} (m : M Generator A) : M ListRandom A := λ r,
  match m (generator r) with
  | (x, g') => (x, {| actors := actors r; generator := g' |})
  end.

(** [k] uniform draws, the drawn element staying in the pool. *)
Fixpoint draw_with_replacement (k : nat) (pool : list Actor)
  : M Generator (list Actor) :=
  match k with
  | O => mret []
  | S k' =>
      i ← integers_below (length pool);
      match pool !! i with
      | Some a => rest ← draw_with_replacement k' pool; mret (a :: rest)
      | None => raise ValueError
      end
  end.

(** [k] uniform draws, the drawn element leaving the pool. *)
Fixpoint draw_without_replacement (k : nat) (pool : list Actor)
  : M Generator (list Actor) :=
  match k with
  | O => mret []
  | S k' =>
      i ← integers_below (length pool);
      match pool !! i with
      | Some a =>
          rest ← draw_without_replacement k' (delete i pool);
          mret (a :: rest)
      | None => raise ValueError
      end
  end.

(** numpy's [Generator.choice(a, size=size, replace=replace, p=p)] for
    an integer [size]: a negative size, a sample from an empty
    population, and a sample without replacement larger than the
    population raise ValueError. *)
Definition generator_choice (a : list Actor) (size : Z) (replace : bool)
    (p : option Prob) : M Generator (list Actor) :=
  match p with
  | Some p' => weighted_choice a size replace p'
  | None =>
      if decide (size < 0) then raise ValueError
      else if decide (length a = 0%nat ∧ size ≠ 0) then raise ValueError
      else if replace then draw_with_replacement (Z.to_nat size) a
      else if decide (Z.of_nat (length a) < size) then raise ValueError
      else draw_without_replacement (Z.to_nat size) a
  end.

(** [~replace] on a bool is the bitwise complement of 0 or 1, and [&]
    binds tighter than [<]. *)
Definition choice (size : Z) (prob : option Prob) (replace as_list : bool)
  : M ListRandom (chosen Actor) :=
  r ← get;
  let instances_num := Z.of_nat (length (actors r)) in
  if bool_decide (instances_num = 0)
     || bool_decide (instances_num < Z.land size (Z.lnot (Z.b2z replace)))
  then raise ABSESpyError
  else
    p ← match prob with
        | None => mret None
        | Some pr => pr' ← lift (clean_p (actors r) pr); mret (Some pr')
        end;
    sample ← on_generator (generator_choice (actors r) size replace p);
    if bool_decide (size = 1) && negb as_list then
      a ← lift (py_index sample 0); mret (Single a)
    else mret (Many sample).

(** The process-wide [np.random] state: the floats that
    [np.random.random()] will return, each in [[0.0, 1.0)], and the
    links between actors. *)
Record globals : Type := {
  links : gset (Actor * string * Actor);
  np_floats : nat → float;
  np_cursor : nat;
}.

Definition np_random_random : M globals float := λ g,
  (Ok (np_floats g (np_cursor g)),
   {| links := links g; np_floats := np_floats g;
      np_cursor := S (np_cursor g) |}).

(** Modelled from the spec: [Actor.link_to] ([abses/actor.py]) is not
    among the sources; [link_to(other, link=link, mutual=True)]
    establishes the link in both directions. *)
Definition link_to (a1 a2 : Actor) (link : string) (mutual : bool)
  : M globals unit := λ g,
  let new := if mutual then {[ (a1, link, a2); (a2, link, a1) ]}
             else {[ (a1, link, a2) ]} in
  (Ok tt,
   {| links := new ∪ links g; np_floats := np_floats g;
      np_cursor := np_cursor g |}).

Definition link (self : ListRandom) (link : string) (p : float)
  : M globals (list (Actor * Actor)) :=
  for_fold (combinations2 (actors self)) []
    (λ '(actor1, actor2) linked_combs,
       u ← np_random_random;
       if (u <? p)%float then
         _ ← link_to actor1 actor2 link true;
         mret (linked_combs ++ [(actor1, actor2)])
       else mret linked_combs).

End random.

Arguments actors {Actor} l.
Arguments generator {Actor} l.

(** *** Vocabulary of the statements *)

(** What [choice] returns for a sample: the actor itself when one actor
    was asked for and [as_list] is False, an [ActorsList] otherwise. *)
Definition returned_as {Actor} (size : Z) (as_list : bool)
    (sample : list Actor) (r : res (chosen Actor)) : Prop :=
  if bool_decide (size = 1) && negb as_list then
    ∃ a, sample = [a] ∧ r = Ok (Single a)
  else r = Ok (Many sample).

(** A concrete helper for the examples: actors are numbers, the
    generator returns 0, 1, 2, ..., no weights are given, and
    [np.random.random()] always returns one half. *)
Definition counting_generator : Generator :=
  {| tape := λ i, i; cursor := 0 |}.

Definition keep_weights (l : list nat) (p : unit) : res unit := Ok p.

Definition refuse_weights (l : list nat) (size : Z) (replace : bool)
    (p : unit) : M Generator (list nat) :=
  raise ValueError.

Definition three_actors : ListRandom (Actor := nat) :=
  {| actors := [7; 8; 9]%nat; generator := counting_generator |}.

Definition one_half : globals (Actor := nat) :=
  {| links := ∅; np_floats := λ _, 0.5%float; np_cursor := 0 |}.

End Random.

(** ** numpy arrays *)

Module Numpy.

(** An array: its shape and its elements in row-major order. *)
Record ndarray (A : Type) : Type := NDArray {
  shape : list nat;
  data : list A;
}.
Arguments NDArray {A} shape data.
Arguments shape {A} n.
Arguments data {A} n.

(** Number of elements of an array of shape [s]. *)
Definition size_of (s : list nat) : nat := foldr Nat.mul 1%nat s.

(** Position of the element with multi-index [idx] in the row-major
    data of an array of shape [s]. *)
Definition ravel (s idx : list nat) : nat :=
  foldl (λ acc '(n, i), (acc * n + i)%nat) 0%nat (zip s idx).

(** The multi-index of position [flat]. *)
Definition unravel (s : list nat) (flat : nat) : list nat :=
  (foldr (λ n '(acc, q), ((q `mod` n)%nat :: acc, (q `div` n)%nat))
         ([], flat) s).1.

(** One index of [a[i, j, ...]] along an axis of length [n]: a negative
    index counts from the end, an index outside [-n, n) raises
    IndexError. *)
Definition norm_index (n : nat) (i : Z) : res nat :=
  let j := if decide (i < 0) then i + Z.of_nat n else i in
  if decide (0 ≤ j < Z.of_nat n) then Ok (Z.to_nat j) else Raise IndexError.

Fixpoint norm_indices (s : list nat) (idx : list Z) : res (list nat) :=
  match s, idx with
  | [], [] => Ok []
  | n :: s', i :: idx' =>
      i' ← norm_index n i; rest ← norm_indices s' idx'; mret (i' :: rest)
  | _, _ => Raise IndexError
  end.

Section ndarray.
Context {A : Type}.

Definition wf_ndarray (a : ndarray A) : Prop :=
  length (data a) = size_of (shape a).

(** [a[i, j, ...]] with as many integer indices as [a] has axes, which
    is how the layer reads and writes single elements.  (With fewer
    indices numpy yields a sub-array; no code here does that, and the
    case is reported as IndexError like the case of too many.) *)
Definition nd_item (a : ndarray A) (idx : list Z) : res A :=
  idx' ← norm_indices (shape a) idx;
  match data a !! ravel (shape a) idx' with
  | Some v => Ok v
  | None => Raise IndexError
  end.

(** [a[i, j, ...] = v] *)
Definition nd_setitem (a : ndarray A) (idx : list Z) (v : A)
  : res (ndarray A) :=
  idx' ← norm_indices (shape a) idx;
  Ok (NDArray (shape a) (<[ravel (shape a) idx' := v]> (data a))).

(** [np.empty(dims)]: an array of float64, numpy's default dtype; its
    content is whatever the memory holds, [garbage]; a negative
    dimension raises ValueError. *)
Definition np_empty (garbage : nat → float) (dims : list Z)
  : res (ndarray float) :=
  if decide (Forall (λ d, 0 ≤ d) dims) then
    let s := Z.to_nat <$> dims in
    Ok (NDArray s (garbage <$> seq 0 (size_of s)))
  else Raise ValueError.

(** [np.array(rows)] for a list of lists of scalars: a two-dimensional
    array when the rows have one length, ValueError when they do not,
    and the empty one-dimensional array for the empty list. *)
Definition np_array (rows : list (list A)) : res (ndarray A) :=
  match rows with
  | [] => Ok (NDArray [0%nat] [])
  | r :: _ =>
      if forallb (λ r', bool_decide (length r' = length r)) rows then
        Ok (NDArray [length rows; length r] (concat rows))
      else Raise ValueError
  end.

Context `{Inhabited A}.

(** [a.T]: the axes in reverse order. *)
Definition transpose (a : ndarray A) : ndarray A :=
  let s := shape a in
  let s' := reverse s in
  NDArray s'
    ((λ i, data a !!! ravel s (reverse (unravel s' i))) <$>
       seq 0 (size_of s')).

(** [np.flipud(a)]: the entries along the first axis in reverse order;
    an array without axes raises ValueError. *)
Definition flipud (a : ndarray A) : res (ndarray A) :=
  match shape a with
  | [] => Raise ValueError
  | n0 :: _ =>
      Ok (NDArray (shape a)
            ((λ i, match unravel (shape a) i with
                   | i0 :: rest =>
                       data a !!! ravel (shape a) ((n0 - 1 - i0)%nat :: rest)
                   | [] => inhabitant
                   end) <$> seq 0 (size_of (shape a))))
  end.

End ndarray.

End Numpy.

(** ** abses/nature.py *)

Module Nature.
Import Numpy.

(** A reference to a cell object. *)
Abbreviation loc := nat (only parsing).

(** [l[start:stop]] on a Python list. *)
Definition py_slice {A} (l : list A) (start stop : option Z) : list A :=
  let n := Z.of_nat (length l) in
  let clamp i := if decide (i < 0) then Z.max (i + n) 0 else Z.min i n in
  let s := default 0 (clamp <$> start) in
  let e := default n (clamp <$> stop) in
  take (Z.to_nat (e - s)) (drop (Z.to_nat s) l).

(** One component of a two-dimensional index: an integer or a slice
    [start:stop]. *)
Inductive index_item : Type :=
  | Int (i : Z)
  | Slice (start stop : option Z).

(** The argument of [layer[...]]. *)
Inductive index : Type :=
  | IndexInt (i : Z)
  | IndexCoords (l : list (Z * Z))
  | IndexPair (x y : index_item).

(** What [get_raster] gives: the array that the function of a dynamic
    variable computed, whatever its elements are, or the float64 array
    filled from the cells. *)
Inductive raster (V : Type) : Type :=
  | Computed (a : ndarray V)
  | Bands (a : ndarray float).
Arguments Computed {V} a.
Arguments Bands {V} a.

(** What [layer[...]] gives: a cell or a list of cells. *)
Inductive item : Type :=
  | Cell (c : loc)
  | Cells (cs : list loc).

(** Python's order on tuples of two integers. *)
Definition coord_le (a b : Z * Z) : Prop :=
  a.1 < b.1 ∨ (a.1 = b.1 ∧ a.2 ≤ b.2).

#[global] Instance coord_le_dec : RelDecision coord_le.
Proof. intros a b. unfold coord_le. apply _. Defined.

(** [sorted(s)] for a set of coordinates. *)
Definition sorted (s : gset (Z * Z)) : list (Z * Z) :=
  merge_sort coord_le (elements s).

Section nature.

(** The values held by cell attributes and by the arrays given to the
    layer: Python objects and numpy scalars of any dtype. *)
Variable V : Type.

(** [data[i, j, k] = value] on a float64 array: numpy converts the
    value to float64.  A float64 stays as it is, an integer is rounded
    to the nearest float64, and a value that is not a number raises
    (ValueError for a string that is no numeral, TypeError for other
    objects). *)
Variable float64 : V → res float.

(** [self.cell_cls.__attribute_properties__()]: the names that are
    properties of the cell class, with what reading and writing such a
    property does ([abses/cells.py] is not among the sources). *)
Variable cell_properties : gset string.

(** The keys of [self._dynamic_variables] (set up by [Module]). *)
Variable _dynamic_variables : gset string.

(** [len(self.cell_cls.__dict__)] *)
Variable cell_cls_dict_len : nat.

(** The content of freshly allocated array memory. *)
Variable garbage : nat → float.

(** A cell object: what the constructor call [cell_cls(layer=self,
    pos=..., indices=...)] is given, and the instance attributes that
    [setattr] adds later under raster attribute names. *)
Record PatchCell : Type := {
  pos : Z * Z;
  indices : Z * Z;
  attrs : gmap string V;
}.

Variable property_get : string → PatchCell → res V.
Variable property_set : string → V → PatchCell → res PatchCell.

Record PatchModule : Type := {
  width : Z;
  height : Z;
  _cells : list (list loc);
  _attributes : gset string;
}.

(** The layer and the cell objects its references point to. *)
Record world : Type := {
  heap : gmap loc PatchCell;
  self : PatchModule;
}.

(** [self.dynamic_var(attr_name).reshape(self.shape3d)]: the dynamic
    variables are computed by functions the user registers. *)
Variable dynamic_raster : string → M world (ndarray V).

Definition set_self (s : PatchModule) : M world unit := λ w,
  (Ok tt, {| heap := heap w; self := s |}).

Definition set_heap (h : gmap loc PatchCell) : M world unit := λ w,
  (Ok tt, {| heap := h; self := self w |}).

(** A new object gets an identity no live object has. *)
Definition alloc (c : PatchCell) : M world loc := λ w,
  let l := fresh (dom (heap w)) in
  (Ok l, {| heap := <[l := c]> (heap w); self := self w |}).

(** [self._cells.append(col)] *)
Definition append_column (col : list loc) : M world unit :=
  w ← get;
  set_self {| width := width (self w); height := height (self w);
              _cells := _cells (self w) ++ [col];
              _attributes := _attributes (self w) |}.

(** [self._attributes = set()] *)
Definition reset_attributes : M world unit :=
  w ← get;
  set_self {| width := width (self w); height := height (self w);
              _cells := _cells (self w); _attributes := ∅ |}.

(** [PatchModule.__init__], after [RasterBase.__init__] has stored
    [width] and [height]; it starts with [self._cells = []], when the
    layer has no attribute set yet. *)
Definition __init__ (w h : Z) : M world unit :=
  _ ← set_self {| width := w; height := h; _cells := [];
                  _attributes := ∅ |};
  _ ← for_each (range w) (λ x,
        col ← for_fold (range h) [] (λ y col,
          let row_idx := h - y - 1 in
          let col_idx := x in
          cell ← alloc {| pos := (x, y); indices := (row_idx, col_idx);
                          attrs := ∅ |};
          mret (col ++ [cell]));
        append_column col);
  reset_attributes.

(** [self.cells[x][y]] *)
Definition cells_at (x y : Z) : M world loc :=
  w ← get;
  col ← lift (py_index (_cells (self w)) x);
  lift (py_index col y).

Definition __getitem__ (idx : index) : M world item :=
  w ← get;
  let cells := _cells (self w) in
  match idx with
  | IndexInt i => col ← lift (py_index cells i); mret (Cells col)
  | IndexCoords [] => raise IndexError
  | IndexCoords l =>
      cs ← for_fold l [] (λ '(x1, y1) cs,
        c ← cells_at x1 y1; mret (cs ++ [c]));
      mret (Cells cs)
  | IndexPair (Int x) (Int y) => c ← cells_at x y; mret (Cell c)
  | IndexPair x y =>
      let as_slice i :=
        match i with
        | Int i => (Some i, Some (i + 1))
        | Slice a b => (a, b)
        end in
      let '(xa, xb) := as_slice x in
      let '(ya, yb) := as_slice y in
      cs ← for_fold (py_slice cells xa xb) [] (λ rows cs,
        mret (cs ++ py_slice rows ya yb));
      mret (Cells cs)
  end.

(** [self.attributes] *)
Definition attributes (s : PatchModule) : gset string :=
  _attributes s ∪ cell_properties.

(** [np.flipud(np.array(self.cells).T)] *)
Definition array_cells : M world (ndarray loc) :=
  w ← get;
  a ← lift (np_array (_cells (self w)));
  lift (flipud (transpose a)).

(** [setattr(cell, name, v)]: a property of the class decides; any
    other name becomes an instance attribute. *)
Definition setattr (c : loc) (name : string) (v : V) : M world unit :=
  w ← get;
  match heap w !! c with
  | None => raise ReferenceError
  | Some cell =>
      if decide (name ∈ cell_properties) then
        cell' ← lift (property_set name v cell);
        set_heap (<[c := cell']> (heap w))
      else
        set_heap (<[c := {| pos := pos cell; indices := indices cell;
                            attrs := <[name := v]> (attrs cell) |}]>
                    (heap w))
  end.

(** [getattr(cell, name)] *)
Definition getattr (c : loc) (name : string) : M world V :=
  w ← get;
  match heap w !! c with
  | None => raise ReferenceError
  | Some cell =>
      if decide (name ∈ cell_properties) then lift (property_get name cell)
      else
        match attrs cell !! name with
        | Some v => mret v
        | None => raise AttributeError
        end
  end.

(** [self._attributes.add(attr_name)] *)
Definition add_attribute (name : string) : M world unit :=
  w ← get;
  set_self {| width := width (self w); height := height (self w);
              _cells := _cells (self w);
              _attributes := {[name]} ∪ _attributes (self w) |}.

Definition apply_raster (d : ndarray V) (attr_name : option string)
  : M world unit :=
  w ← get;
  let h := height (self w) in
  let wd := width (self w) in
  if decide (Z.of_nat <$> shape d ≠ [1; h; wd]) then raise ValueError
  else
    let attr_name :=
      match attr_name with
      | Some a => a
      | None => "attribute_" +:+ pretty cell_cls_dict_len
      end in
    _ ← add_attribute attr_name;
    for_each (range wd) (λ x,
      for_each (range h) (λ y,
        c ← cells_at x y;
        v ← lift (nd_item d [0; h - y - 1; x]);
        setattr c attr_name v)).

Definition get_raster (attr_name : option string) : M world (raster V) :=
  w ← get;
  let h := height (self w) in
  let wd := width (self w) in
  let attrs := attributes (self w) in
  match attr_name with
  | Some a =>
      if decide (a ∈ _dynamic_variables) then
        d ← dynamic_raster a; mret (Computed d)
      else if decide (a ∉ attrs) then raise ValueError
      else
        d ← lift (np_empty garbage [1; h; wd]);
        d ← for_fold (imap (λ i n, (Z.of_nat i, n)) [a]) d
          (λ '(ind, name) d,
            for_fold (range wd) d (λ x d,
              for_fold (range h) d (λ y d,
                c ← cells_at x y;
                v ← getattr c name;
                f ← lift (float64 v);
                lift (nd_setitem d [ind; h - y - 1; x] f))));
        mret (Bands d)
  | None =>
      d ← lift (np_empty garbage [Z.of_nat (size attrs); h; wd]);
      d ← for_fold (imap (λ i n, (Z.of_nat i, n)) (elements attrs)) d
        (λ '(ind, name) d,
          for_fold (range wd) d (λ x d,
            for_fold (range h) d (λ y d,
              c ← cells_at x y;
              v ← getattr c name;
              f ← lift (float64 v);
              lift (nd_setitem d [ind; h - y - 1; x] f))));
      mret (Bands d)
  end.

(** [RasterBase.out_of_bounds] of mesa-geo, the base class of
    [PatchModule]. *)
Definition out_of_bounds (s : PatchModule) (p : Z * Z) : bool :=
  let '(x, y) := p in
  bool_decide (x < 0) || bool_decide (x >= width s)
  || bool_decide (y < 0) || bool_decide (y >= height s).

(** [get_neighborhood]; the [lru_cache] around it returns the list
    computed by this body. *)
Definition get_neighborhood (s : PatchModule) (p : Z * Z)
    (moore include_center : bool) (radius : Z) : list (Z * Z) :=
  let '(x, y) := p in
  let coordinates :=
    foldl (λ (coordinates : gset (Z * Z)) '(dy, dx),
             if bool_decide (dx = 0) && bool_decide (dy = 0)
                && negb include_center then coordinates
             else if negb moore
                     && bool_decide (Z.abs dx + Z.abs dy > radius)
             then coordinates
             else
               let coord := (x + dx, y + dy) in
               if out_of_bounds s coord then coordinates
               else {[coord]} ∪ coordinates)
          ∅
          (list_prod (range2 (- radius) (radius + 1))
                     (range2 (- radius) (radius + 1))) in
  sorted coordinates.

End nature.

Arguments pos {V} p.
Arguments indices {V} p.
Arguments attrs {V} p.
Arguments heap {V} w.
Arguments self {V} w.

(** *** Vocabulary of the statements *)

(** The coordinates [get_neighborhood] is to return: in bounds, within
    [radius] of [p] along both axes, within Manhattan distance [radius]
    when [moore] is False, and other than [p] unless [include_center]. *)
Definition in_neighborhood (s : PatchModule) (p : Z * Z)
    (moore include_center : bool) (radius : Z) (c : Z * Z) : Prop :=
  let dx := c.1 - p.1 in
  let dy := c.2 - p.2 in
  out_of_bounds s c = false
  ∧ Z.abs dx ≤ radius ∧ Z.abs dy ≤ radius
  ∧ (moore = false → Z.abs dx + Z.abs dy ≤ radius)
  ∧ (c = p → include_center = true).

(** The cell that the constructor of a layer of height [h] creates at
    position [(x, y)]. *)
Definition new_cell {V} (h x y : Z) : PatchCell V :=
  {| pos := (x, y); indices := (h - y - 1, x); attrs := ∅ |}.

(** The reference stored at column [x], row [y] of the grid. *)
Definition grid_at {V} (w : world V) (x y : Z) : option loc :=
  col ← _cells (self w) !! Z.to_nat x; col !! Z.to_nat y.

(** A layer as the constructor leaves it and as the methods keep it:
    [width] columns of [height] references each, all to different, live
    cell objects. *)
Record wf_layer {V} (w : world V) : Prop := WfLayer {
  wf_width : 0 ≤ width (self w);
  wf_height : 0 ≤ height (self w);
  wf_columns : length (_cells (self w)) = Z.to_nat (width (self w));
  wf_rows :
    Forall (λ col, length col = Z.to_nat (height (self w)))
           (_cells (self w));
  wf_distinct : NoDup (concat (_cells (self w)));
  wf_alive : ∀ c, c ∈ concat (_cells (self w)) → is_Some (heap w !! c);
}.

(** One round of the loop of [get_neighborhood] around [(x, y)]. *)
Definition visit (s : PatchModule) (x y : Z) (moore include_center : bool)
    (radius : Z) (coordinates : gset (Z * Z)) (d : Z * Z) : gset (Z * Z) :=
  let '(dy, dx) := d in
  if bool_decide (dx = 0) && bool_decide (dy = 0) && negb include_center
  then coordinates
  else if negb moore && bool_decide (Z.abs dx + Z.abs dy > radius)
  then coordinates
  else
    let coord := (x + dx, y + dy) in
    if out_of_bounds s coord then coordinates
    else {[coord]} ∪ coordinates.

(** The offsets that the loop turns into a coordinate. *)
Definition kept (s : PatchModule) (x y : Z) (moore include_center : bool)
    (radius : Z) (d : Z * Z) : Prop :=
  let '(dy, dx) := d in
  ¬ (dx = 0 ∧ dy = 0 ∧ include_center = false)
  ∧ ¬ (moore = false ∧ Z.abs dx + Z.abs dy > radius)
  ∧ out_of_bounds s (x + dx, y + dy) = false.

(** The name [apply_raster] stores the data under. *)
Definition stored_name (cell_cls_dict_len : nat)
    (attr_name : option string) : string :=
  match attr_name with
  | Some a => a
  | None => "attribute_" +:+ pretty cell_cls_dict_len
  end.

(** The cell [cell'] is the cell [cell] up to the attribute [name],
    which is also the same unless [touched]. *)
Definition same_but {V} (name : string) (touched : Prop)
    (cell cell' : PatchCell V) : Prop :=
  pos cell' = pos cell ∧ indices cell' = indices cell
  ∧ (∀ n, n ≠ name → attrs cell' !! n = attrs cell !! n)
  ∧ (attrs cell' !! name = attrs cell !! name ∨ touched).

(** The layer of [w] once [apply_raster(d, name)] has reached the
    positions [D]: the name is registered, no object was created or
    lost, the cells at the positions of [D] hold their element of [d]
    under [name], and nothing else has changed. *)
Definition stamped {V} (w : world V) (d : ndarray V) (name : string)
    (D : Z → Z → Prop) (w' : world V) : Prop :=
  self w' = {| width := width (self w); height := height (self w);
               _cells := _cells (self w);
               _attributes := {[name]} ∪ _attributes (self w) |}
  ∧ dom (heap w') = dom (heap w)
  ∧ (∀ x y c,
       0 ≤ x < width (self w) → 0 ≤ y < height (self w) →
       grid_at w x y = Some c → D x y →
       ∃ cell v, heap w' !! c = Some cell ∧ attrs cell !! name = Some v
                 ∧ nd_item d [0; height (self w) - y - 1; x] = Ok v)
  ∧ (∀ c cell', heap w' !! c = Some cell' →
       ∃ cell, heap w !! c = Some cell
               ∧ same_but name
                   (∃ x y, 0 ≤ x < width (self w)
                           ∧ 0 ≤ y < height (self w)
                           ∧ grid_at w x y = Some c ∧ D x y)
                   cell cell').

(** Every cell of the grid holds an instance attribute [name], with a
    value that converts to float64. *)
Definition readable {V} (float64 : V → res float) (w : world V)
    (name : string) : Prop :=
  ∀ x y c,
    0 ≤ x < width (self w) → 0 ≤ y < height (self w) →
    grid_at w x y = Some c →
    ∃ cell v f, heap w !! c = Some cell ∧ attrs cell !! name = Some v
                ∧ float64 v = Ok f.

(** The array of [get_raster(name)] once its loop has reached the
    positions [D]: a band of [height] rows and [width] columns whose
    element for a position of [D] is the cell's value of [name],
    converted to float64. *)
Definition filled {V} (float64 : V → res float) (w : world V)
    (name : string) (D : Z → Z → Prop) (acc : ndarray float) : Prop :=
  let H := Z.to_nat (height (self w)) in
  let W := Z.to_nat (width (self w)) in
  shape acc = [1%nat; H; W]
  ∧ length (data acc) = (H * W)%nat
  ∧ ∀ x y c,
      0 ≤ x < width (self w) → 0 ≤ y < height (self w) →
      grid_at w x y = Some c → D x y →
      ∃ cell v f, heap w !! c = Some cell ∧ attrs cell !! name = Some v
                  ∧ float64 v = Ok f
                  ∧ data acc !! ((H - 1 - Z.to_nat y) * W + Z.to_nat x)%nat
                    = Some f.

(** The cells of the grid hold, under [name], the elements of the band
    [d], each at its position. *)
Definition holds_band {V} (w : world V) (name : string) (d : ndarray V)
  : Prop :=
  ∀ x y c,
    0 ≤ x < width (self w) → 0 ≤ y < height (self w) →
    grid_at w x y = Some c →
    ∃ cell v, heap w !! c = Some cell ∧ attrs cell !! name = Some v
              ∧ nd_item d [0; height (self w) - y - 1; x] = Ok v.

(** Every cell of the grid holds, under [name], a float64 value;
    [np_float64 f] is the float64 [f] as a value. *)
Definition holds_float64 {V} (np_float64 : float → V) (w : world V)
    (name : string) : Prop :=
  ∀ x y c,
    0 ≤ x < width (self w) → 0 ≤ y < height (self w) →
    grid_at w x y = Some c →
    ∃ cell f, heap w !! c = Some cell
              ∧ attrs cell !! name = Some (np_float64 f).

(** A method that does not raise ValueError, whatever the state. *)
Definition no_value_error {S A} (m : M S A) : Prop :=
  ∀ s, (m s).1 ≠ Raise ValueError.

(** The state before any layer is constructed. *)
Definition empty_world {V} : world V :=
  {| heap := ∅;
     self := {| width := 0; height := 0; _cells := [];
                _attributes := ∅ |} |}.

(** A cell class without properties: a property cannot be read or
    written. *)
Definition no_property_get {V} (name : string) (c : PatchCell V) : res V :=
  Raise AttributeError.

Definition no_property_set {V} (name : string) (v : V) (c : PatchCell V)
  : res (PatchCell V) :=
  Raise AttributeError.

(** A layer without dynamic variables. *)
Definition no_dynamic_raster {V} (name : string) : M (world V) (ndarray V) :=
  raise KeyError.

(** Memory that holds zeros. *)
Definition zeros (i : nat) : float := 0%float.

(** The elements of float64 and of int64 arrays, for the examples, and
    their conversion to float64: an int64 is rounded to the nearest
    float64, ties to even. *)
Inductive scalar : Type :=
  | Float64 (f : float)
  | Int64 (z : Z).

Definition float64_of_int64 (z : Z) : float :=
  if decide (z = -9223372036854775808) then (-9223372036854775808)%float
  else if decide (0 ≤ z) then of_uint63 (Uint63.of_Z z)
  else (- of_uint63 (Uint63.of_Z (- z)))%float.

Definition float64_of_scalar (v : scalar) : res float :=
  match v with
  | Float64 f => Ok f
  | Int64 z => Ok (float64_of_int64 z)
  end.

(** A band of two rows and three columns, of float64. *)
Definition two_rows : ndarray scalar :=
  NDArray [1; 2; 3]%nat
    (Float64 <$> [11; 12; 13; 21.5; 22.5; 23.5]%float).

(** The layer of one cell, and the bands whose one element is the int64
    [2^53 + 1] and [2^53]. *)
Definition one_cell : world scalar := (__init__ scalar 1 1 empty_world).2.

Definition odd_band : ndarray scalar :=
  NDArray [1; 1; 1]%nat [Int64 9007199254740993].

Definition even_band : ndarray scalar :=
  NDArray [1; 1; 1]%nat [Int64 9007199254740992].

(** A layer three cells wide and two cells high, for the examples. *)
Definition three_by_two : PatchModule :=
  {| width := 3; height := 2; _cells := [[0; 1]; [2; 3]; [4; 5]]%nat;
     _attributes := ∅ |}.

End Nature.


(** * Properties *)

(** ** Loops, ranges and indexing *)

Module PythonSpec.

(** A loop that never raises keeps an invariant of the items already
    visited. *)
Lemma for_each_inv {S A} (I : list A → S → Prop) (l : list A)
    (body : A → M S unit) :
  ∀ (done_ : list A) (s : S),
    I done_ s →
    (∀ pre x post s', done_ ++ l = pre ++ x :: post → I pre s' →
       ∃ s'', body x s' = (Ok tt, s'') ∧ I (pre ++ [x]) s'') →
    ∃ s', for_each l body s = (Ok tt, s') ∧ I (done_ ++ l) s'.
Proof.
  induction l as [|x l IH]; intros done_ s HI Hbody.
  - exists s. by rewrite app_nil_r.
  - destruct (Hbody done_ x l s eq_refl HI) as (s1 & Hx & HI1).
    destruct (IH (done_ ++ [x]) s1 HI1) as (s' & Hrun & HI').
    { intros pre y post s2 Heq. apply (Hbody pre y post).
      by rewrite <- Heq, <- app_assoc. }
    exists s'. simpl. unfold mbind, M_bind. rewrite Hx.
    split; [exact Hrun|]. by rewrite <- app_assoc in HI'.
Qed.

Lemma for_fold_inv {S A B} (I : list A → B → S → Prop) (l : list A)
    (body : A → B → M S B) :
  ∀ (done_ : list A) (acc : B) (s : S),
    I done_ acc s →
    (∀ pre x post acc' s', done_ ++ l = pre ++ x :: post → I pre acc' s' →
       ∃ acc'' s'', body x acc' s' = (Ok acc'', s'')
                    ∧ I (pre ++ [x]) acc'' s'') →
    ∃ acc' s', for_fold l acc body s = (Ok acc', s') ∧ I (done_ ++ l) acc' s'.
Proof.
  induction l as [|x l IH]; intros done_ acc s HI Hbody.
  - exists acc, s. by rewrite app_nil_r.
  - destruct (Hbody done_ x l acc s eq_refl HI) as (acc1 & s1 & Hx & HI1).
    destruct (IH (done_ ++ [x]) acc1 s1 HI1) as (acc' & s' & Hrun & HI').
    { intros pre y post acc2 s2 Heq. apply (Hbody pre y post).
      by rewrite <- Heq, <- app_assoc. }
    exists acc', s'. simpl. unfold mbind, M_bind. rewrite Hx.
    split; [exact Hrun|]. by rewrite <- app_assoc in HI'.
Qed.

Lemma elem_of_range (n i : Z) : i ∈ range n ↔ 0 ≤ i < n.
Proof.
  unfold range. rewrite list_elem_of_fmap. split.
  - intros (k & -> & Hk%elem_of_seq). lia.
  - intros Hi. exists (Z.to_nat i). split; [lia|].
    apply elem_of_seq. lia.
Qed.

Lemma elem_of_range2 (a b i : Z) : i ∈ range2 a b ↔ a ≤ i < b.
Proof.
  unfold range2. rewrite list_elem_of_fmap. split.
  - intros (k & -> & Hk%elem_of_seq). lia.
  - intros Hi. exists (Z.to_nat (i - a)). split; [lia|].
    apply elem_of_seq. lia.
Qed.

Lemma length_range (n : Z) : length (range n) = Z.to_nat n.
Proof. unfold range. by rewrite length_fmap, length_seq. Qed.

Lemma lookup_range (n : Z) (i : nat) :
  (i < Z.to_nat n)%nat → range n !! i = Some (Z.of_nat i).
Proof.
  intros Hi. unfold range. rewrite list_lookup_fmap, lookup_seq_lt by done.
  done.
Qed.

(** While [range(n)] is traversed, the items already visited are the
    integers below the current one. *)
Lemma range_split (n : Z) (pre post : list Z) (x : Z) :
  range n = pre ++ x :: post →
  0 ≤ x < n ∧ x = Z.of_nat (length pre)
  ∧ (∀ i, i ∈ pre ↔ 0 ≤ i < x)
  ∧ (∀ i, i ∈ pre ++ [x] ↔ 0 ≤ i < x + 1).
Proof.
  intros Heq.
  assert (Hlen : (length pre < Z.to_nat n)%nat).
  { rewrite <- length_range, Heq, length_app. simpl. lia. }
  assert (Hx : x = Z.of_nat (length pre)).
  { pose proof (lookup_range n (length pre) Hlen) as Hl.
    rewrite Heq, list_lookup_middle in Hl by done. congruence. }
  assert (Hpre : ∀ i, i ∈ pre ↔ 0 ≤ i < x).
  { intros i. rewrite list_elem_of_lookup. split.
    - intros (k & Hk). pose proof (lookup_lt_Some _ _ _ Hk) as Hlt.
      assert (Hr : range n !! k = Some i)
        by (rewrite Heq; by apply lookup_app_l_Some).
      rewrite lookup_range in Hr by lia. injection Hr as <-. lia.
    - intros Hi. exists (Z.to_nat i).
      assert (Hr : range n !! Z.to_nat i = Some i)
        by (rewrite lookup_range by lia; f_equal; lia).
      rewrite Heq, lookup_app_l in Hr by lia. done. }
  split; [lia|]. split; [done|]. split; [done|].
  intros i. rewrite elem_of_app, Hpre, list_elem_of_singleton. lia.
Qed.

(** [l[i]] for an index within the list. *)
Lemma py_index_nonneg {A} (l : list A) (i : Z) (a : A) :
  0 ≤ i → l !! Z.to_nat i = Some a → py_index l i = Ok a.
Proof.
  intros Hi Hl. pose proof (lookup_lt_Some _ _ _ Hl) as Hlt.
  unfold py_index. cbv zeta.
  destruct (decide (i < 0)) as [?|_]; [lia|].
  destruct (decide _) as [_|?]; [|lia]. by rewrite Hl.
Qed.

(** An element of the concatenation of rows of one length. *)
Lemma lookup_concat_uniform {A} (rows : list (list A)) (n : nat) :
  Forall (λ r, length r = n) rows →
  ∀ i j, (j < n)%nat →
    concat rows !! (i * n + j)%nat = rows !! i ≫= (λ r, r !! j).
Proof.
  induction 1 as [|r rows Hr Hrows IH]; intros i j Hj; [done|].
  destruct i as [|i]; simpl.
  - rewrite lookup_app_l by lia. done.
  - rewrite lookup_app_r by lia.
    replace (n + i * n + j - length r)%nat with (i * n + j)%nat by lia.
    by apply IH.
Qed.

Lemma elem_of_concat {A} (rows : list (list A)) (a : A) :
  a ∈ concat rows ↔ ∃ r, a ∈ r ∧ r ∈ rows.
Proof.
  induction rows as [|r rows IH]; simpl.
  - split; [by intros ?%elem_of_nil | by intros (? & _ & ?%elem_of_nil)].
  - rewrite elem_of_app, IH. split.
    + intros [?|(r' & ? & ?)]; [exists r | exists r'];
        (split; [done|]); [left | by right].
    + intros (r' & ? & [->|?]%elem_of_cons); [by left|].
      right. by exists r'.
Qed.

Lemma length_concat_uniform {A} (rows : list (list A)) (n : nat) :
  Forall (λ r, length r = n) rows →
  length (concat rows) = (length rows * n)%nat.
Proof.
  induction 1 as [|r rows Hr Hrows IH]; [done|].
  simpl. rewrite length_app. lia.
Qed.

End PythonSpec.

(** ** numpy arrays *)

Module NumpySpec.
Import Numpy.

Lemma ravel_2 (a b i j : nat) : ravel [a; b] [i; j] = (i * b + j)%nat.
Proof. unfold ravel. simpl. lia. Qed.

Lemma ravel_3 (a b c i j k : nat) :
  ravel [a; b; c] [i; j; k] = ((i * b + j) * c + k)%nat.
Proof. unfold ravel. simpl. lia. Qed.

Lemma unravel_2 (a b i j : nat) :
  (i < a)%nat → (j < b)%nat → unravel [a; b] (i * b + j) = [i; j].
Proof.
  intros Hi Hj. unfold unravel. simpl.
  assert (Hd : ((i * b + j) `div` b = i)%nat).
  { symmetry. apply (Nat.div_unique _ _ _ j); lia. }
  assert (Hm : ((i * b + j) `mod` b = j)%nat).
  { symmetry. apply (Nat.mod_unique _ _ i); lia. }
  rewrite Hd, Hm. by rewrite Nat.mod_small.
Qed.

Lemma norm_index_in_range (n : nat) (i : Z) :
  0 ≤ i < Z.of_nat n → norm_index n i = Ok (Z.to_nat i).
Proof.
  intros Hi. unfold norm_index. cbv zeta.
  destruct (decide (i < 0)) as [?|_]; [lia|].
  destruct (decide _) as [_|?]; [done|lia].
Qed.

Lemma lookup_tabulate {A} (f : nat → A) (n i : nat) :
  (i < n)%nat → (f <$> seq 0 n) !! i = Some (f i).
Proof.
  intros Hi. by rewrite list_lookup_fmap, lookup_seq_lt.
Qed.

Section ndarray.
Context {A : Type}.

(** [a[i, j]] on a two-dimensional array. *)
Lemma nd_item_2 (a : ndarray A) (r c : nat) (i j : Z) (v : A) :
  shape a = [r; c] →
  0 ≤ i < Z.of_nat r → 0 ≤ j < Z.of_nat c →
  data a !! (Z.to_nat i * c + Z.to_nat j)%nat = Some v →
  nd_item a [i; j] = Ok v.
Proof.
  intros Hs Hi Hj Hv. unfold nd_item. rewrite Hs. simpl.
  rewrite !norm_index_in_range by done. simpl.
  by rewrite ravel_2, Hv.
Qed.

(** [a[0, i, j]] on an array of shape [(1, r, c)]. *)
Lemma nd_item_3 (a : ndarray A) (r c : nat) (i j : Z) (v : A) :
  shape a = [1%nat; r; c] →
  0 ≤ i < Z.of_nat r → 0 ≤ j < Z.of_nat c →
  data a !! (Z.to_nat i * c + Z.to_nat j)%nat = Some v →
  nd_item a [0; i; j] = Ok v.
Proof.
  intros Hs Hi Hj Hv. unfold nd_item. rewrite Hs. simpl.
  rewrite !norm_index_in_range by (done || lia). simpl.
  change (Z.to_nat 0) with 0%nat. rewrite ravel_3.
  change (0 * r + Z.to_nat i)%nat with (Z.to_nat i). by rewrite Hv.
Qed.

Lemma nd_setitem_3 (a : ndarray A) (r c : nat) (i j : Z) (v : A) :
  shape a = [1%nat; r; c] →
  0 ≤ i < Z.of_nat r → 0 ≤ j < Z.of_nat c →
  nd_setitem a [0; i; j] v
  = Ok (NDArray (shape a)
          (<[(Z.to_nat i * c + Z.to_nat j)%nat := v]> (data a))).
Proof.
  intros Hs Hi Hj. unfold nd_setitem. rewrite Hs. simpl.
  rewrite !norm_index_in_range by (done || lia). simpl.
  change (Z.to_nat 0) with 0%nat. by rewrite ravel_3.
Qed.

Lemma np_array_uniform (rows : list (list A)) (n : nat) :
  rows ≠ [] →
  Forall (λ r, length r = n) rows →
  np_array rows = Ok (NDArray [length rows; n] (concat rows)).
Proof.
  intros Hne Hall. unfold np_array.
  destruct rows as [|r rows]; [done|].
  pose proof (Forall_inv Hall) as Hr. simpl in Hr.
  rewrite (proj2 (forallb_forall _ _)); [by rewrite Hr|].
  intros r' Hin%list_elem_of_In. apply bool_decide_eq_true.
  rewrite Forall_forall in Hall. rewrite (Hall r' Hin). done.
Qed.

Context `{Inhabited A}.

(** The element of [a.T] at row [j], column [i] is the element of [a]
    at row [i], column [j]. *)
Lemma transpose_2 (a : ndarray A) (r c i j : nat) :
  shape a = [r; c] → (i < r)%nat → (j < c)%nat →
  shape (transpose a) = [c; r]
  ∧ data (transpose a) !! (j * r + i)%nat
    = Some (data a !!! (i * c + j)%nat).
Proof.
  intros Hs Hi Hj. unfold transpose. rewrite Hs. simpl.
  split; [done|].
  change (reverse [r; c]) with [c; r].
  rewrite lookup_tabulate by (simpl; nia).
  rewrite unravel_2 by done.
  change (reverse [j; i]) with [i; j]. by rewrite ravel_2.
Qed.

(** Row [i] of [np.flipud(a)] is row [r - 1 - i] of [a]. *)
Lemma flipud_2 (a : ndarray A) (r c i j : nat) :
  shape a = [r; c] → (i < r)%nat → (j < c)%nat →
  ∃ a', flipud a = Ok a' ∧ shape a' = [r; c]
        ∧ data a' !! (i * c + j)%nat
          = Some (data a !!! ((r - 1 - i) * c + j)%nat).
Proof.
  intros Hs Hi Hj. unfold flipud. rewrite Hs.
  eexists. split; [reflexivity|]. cbn [shape data]. split; [done|].
  rewrite lookup_tabulate by (simpl; nia).
  rewrite unravel_2 by done. by rewrite ravel_2.
Qed.

End ndarray.

End NumpySpec.


(** ** MainMediator *)

Module MediatorSpec.
Import Mediator.

Section states.

Variable STATES : gmap Z string.
Variable assign_state : user → Z → M MainMediator unit.

(** [_states_are] reads the three states and changes nothing; with
    [how="all"] its answer is True exactly when the three users are in
    the state asked for. *)
Lemma states_are_all (nm : string) (m : MainMediator) :
  ∀ (b : bool) (m' : MainMediator),
    _states_are STATES nm "all" m = (Ok b, m') →
    m' = m ∧ (b = true ↔ share_state STATES nm m).
Proof.
  intros b m'.
  unfold _states_are, users, mbind, M_bind, get, lift, mret, M_ret,
    share_state. simpl.
  destruct (get_state STATES (model m)) as [s1|] eqn:E1; [|done].
  destruct (get_state STATES (human m)) as [s2|] eqn:E2; [|done].
  destruct (get_state STATES (nature m)) as [s3|] eqn:E3; [|done].
  simpl. intros [= <- <-]. split; [done|].
  rewrite !andb_true_iff, !bool_decide_eq_true. split.
  - intros (-> & -> & -> & _) u. unfold users.
    rewrite !elem_of_cons, elem_of_nil. intros [->|[->|[->|[]]]]; done.
  - intros Hall. unfold users in Hall.
    pose proof (Hall (model m) ltac:(set_solver)) as H1.
    pose proof (Hall (human m) ltac:(set_solver)) as H2.
    pose proof (Hall (nature m) ltac:(set_solver)) as H3.
    rewrite E1 in H1. rewrite E2 in H2. rewrite E3 in H3.
    by simplify_eq.
Qed.

Lemma states_are_raise (nm : string) (m : MainMediator) :
  ∀ (e : exn) (m' : MainMediator),
    _states_are STATES nm "all" m = (Raise e, m') → m' = m.
Proof.
  intros e m'.
  unfold _states_are, users, mbind, M_bind, get, lift, mret, M_ret. simpl.
  destruct (get_state STATES (model m)); [|by intros [= _ <-]].
  destruct (get_state STATES (human m)); [|by intros [= _ <-]].
  destruct (get_state STATES (nature m)); [|by intros [= _ <-]].
  simpl. done.
Qed.


End states.


Lemma check_sender_cases (m : MainMediator) (s : pyref) :
  (s = model_ref m ∧ _check_sender s m = set_sender "model" m)
  ∨ (s ≠ model_ref m ∧ s = human_ref m
     ∧ _check_sender s m = set_sender "human" m)
  ∨ (s ≠ model_ref m ∧ s ≠ human_ref m ∧ s = nature_ref m
     ∧ _check_sender s m = set_sender "nature" m)
  ∨ (s ≠ model_ref m ∧ s ≠ human_ref m ∧ s ≠ nature_ref m
     ∧ isinstance_Actor s = true
     ∧ _check_sender s m = set_sender "agent" m)
  ∨ (¬ known_sender m s ∧ _check_sender s m = (Raise TypeError, m)).
Proof.
  unfold _check_sender, is_, known_sender, mbind, M_bind, get. simpl.
  destruct (decide (s = model_ref m)) as [E1|N1].
  { left. by rewrite bool_decide_eq_true_2. }
  rewrite (bool_decide_eq_false_2 _ N1). right.
  destruct (decide (s = human_ref m)) as [E2|N2].
  { left. by rewrite bool_decide_eq_true_2. }
  rewrite (bool_decide_eq_false_2 _ N2). right.
  destruct (decide (s = nature_ref m)) as [E3|N3].
  { left. by rewrite bool_decide_eq_true_2. }
  rewrite (bool_decide_eq_false_2 _ N3). right.
  destruct (isinstance_Actor s) eqn:Ha.
  - left. done.
  - right. split; [| done]. intros [?|[?|[?|?]]]; done.
Qed.


End MediatorSpec.

(** ** HumanModule *)

Module HumanSpec.
Import Human.

Section saved_selections.

Context {Actor Selection Stored : Type}.
Variable select : list Actor → Selection → res (list Actor).
Variable dictconfig_node : Selection → res Stored.
Variable dictconfig_missing : Stored → bool.
Variable dictconfig_value : Stored → res Selection.
Variable inherited : string → bool.
Variable super_getattr : string → res (pyvalue Actor Stored).

#[local] Abbreviation define' :=
  (define Actor Selection select Stored dictconfig_node).
#[local] Abbreviation read_attribute' :=
  (read_attribute Actor Selection select Stored dictconfig_missing
     dictconfig_value inherited super_getattr).
#[local] Abbreviation kept_as_is' :=
  (kept_as_is dictconfig_node dictconfig_missing dictconfig_value).

Lemma lookup_normal_None (h h' : HumanModule Actor Stored)
    (name : string) :
  lookup_normal Actor Stored inherited h name = None →
  lookup_normal Actor Stored inherited h' name = None.
Proof.
  unfold lookup_normal. repeat case_decide; done.
Qed.

Lemma getattr_saved (h : HumanModule Actor Stored) (name : string)
    (n : Stored) (sel : Selection) :
  first_is_underscore name = Ok false →
  _collections _ _ h !! name = Some n →
  dictconfig_missing n = false →
  dictconfig_value n = Ok sel →
  __getattr__ Actor Selection select Stored dictconfig_missing
    dictconfig_value super_getattr name h
  = (selected_now select (actors _ _ h) sel, h).
Proof.
  intros Hu Hn Hmiss Hval.
  unfold __getattr__, contains, mbind, M_bind, get, lift. simpl.
  rewrite Hu. simpl. rewrite Hn, Hmiss. simpl. rewrite Hval.
  unfold selected_now.
  by destruct (select (actors Actor Stored h) sel).
Qed.

Lemma define_run (h : HumanModule Actor Stored) (name : string)
    (sel : Selection) (l : list Actor) (n : Stored) :
  select (actors _ _ h) sel = Ok l →
  dictconfig_node sel = Ok n →
  define' name sel h
  = (Ok l, {| _agents := _agents _ _ h;
              _collections := <[name := n]> (_collections _ _ h) |}).
Proof.
  intros Hsel Hnode.
  unfold define, store_selection, mbind, M_bind, get, lift. simpl.
  by rewrite Hsel, Hnode.
Qed.

(** C6, as amended.  For a non-empty name that does not begin with an
    underscore and that ordinary attribute lookup does not find on the
    module, and a selection [sel] that the [DictConfig] of saved
    selections keeps as it is, [define(name, sel)] stores [sel] under
    [name] and returns [actors.select(sel)]; afterwards reading the
    attribute [name] gives [actors.select(sel)] evaluated over the
    actors the module holds at the time of the read: the query is what
    is kept, not its result. *)
Theorem define_saves_query (h : HumanModule Actor Stored)
    (name : string) (sel : Selection) (l : list Actor) :
  first_is_underscore name = Ok false →
  lookup_normal Actor Stored inherited h name = None →
  kept_as_is' sel →
  select (actors _ _ h) sel = Ok l →
  ∃ h' n,
    define' name sel h = (Ok l, h')
    ∧ _collections _ _ h' !! name = Some n
    ∧ dictconfig_value n = Ok sel
    ∧ _agents _ _ h' = _agents _ _ h
    ∧ ∀ current,
        read_attribute' name (with_agents _ _ current h')
        = (selected_now select current sel, with_agents _ _ current h').
Proof.
  intros Hu Hnone (n & Hnode & Hmiss & Hval) Hsel.
  rewrite (define_run h name sel l n Hsel Hnode).
  eexists _, n. split; [reflexivity|]. simpl.
  split; [by rewrite lookup_insert_eq|]. split; [done|]. split; [done|].
  intros current.
  unfold read_attribute, mbind, M_bind, get. simpl.
  erewrite lookup_normal_None by exact Hnone.
  rewrite (getattr_saved _ name n sel); simpl; try done.
  by rewrite lookup_insert_eq.
Qed.

End saved_selections.

(** A saved selection named like a property of the module is stored
    but never read back: [module.actors] is the property. *)
Lemma define_shadowed_by_property :
  let define' := define nat nat select_below nat node_of_number in
  let read' :=
    read_attribute nat nat select_below nat never_missing value_of_number
      no_inherited no_super_getattr in
  let h' := (define' "actors" 0%nat two_actors).2 in
  first_is_underscore "actors" = Ok false
  ∧ (define' "actors" 0%nat two_actors).1 = Ok []
  ∧ _collections _ _ h' !! "actors" = Some 0%nat
  ∧ (read' "actors" h').1 = Ok (VActorsList [1; 2]%nat)
  ∧ (read' "actors" h').1 ≠ selected_now select_below (actors _ _ h') 0%nat.
Proof. vm_compute. repeat split; congruence. Qed.

(** The empty name does not begin with an underscore either, and
    reading it raises IndexError at [name[0]]. *)
Lemma define_empty_name :
  let h' := (define nat nat select_below nat node_of_number "" 5%nat
               two_actors).2 in
  (read_attribute nat nat select_below nat never_missing value_of_number
     no_inherited no_super_getattr "" h').1 = Raise IndexError.
Proof. reflexivity. Qed.

Lemma define_saves_query_witness :
  ∃ h', define nat nat select_below nat node_of_number "young" 2%nat
          two_actors = (Ok [1%nat], h')
        ∧ (read_attribute nat nat select_below nat never_missing
             value_of_number no_inherited no_super_getattr "young"
             (with_agents _ _ [0; 1; 7]%nat h')).1
          = Ok (VActorsList [0; 1]%nat).
Proof.
  destruct (define_saves_query select_below node_of_number never_missing
              value_of_number no_inherited no_super_getattr
              two_actors "young" 2%nat [1%nat])
    as (h' & n & Hd & _ & _ & _ & Hr);
    [reflexivity | reflexivity | by exists 2%nat | reflexivity |].
  exists h'. split; [exact Hd|]. by rewrite Hr.
Defined.

Section arena.

Context {Actors Trigger World : Type}.
Variable trigger_impl : trigger_call Actors Trigger → M World unit.

(** The calls [arena] makes, whatever they do: the second is made only
    if the first returns. *)
Lemma arena_calls (a1 a2 : Actors) (f : Trigger)
    (log : list (trigger_call Actors Trigger)) (w : World) :
  let c1 := TriggerCall a1 f a2 in
  let c2 := TriggerCall a2 f a1 in
  arena Actors Trigger World trigger_impl a1 a2 f (log, w)
  = match trigger_impl c1 w with
    | (Ok _, w1) =>
        ((trigger_impl c2 w1).1, (log ++ [c1; c2], (trigger_impl c2 w1).2))
    | (Raise e, w1) => (Raise e, (log ++ [c1], w1))
    end.
Proof.
  simpl. unfold arena, trigger, mbind, M_bind.
  destruct (trigger_impl (TriggerCall a1 f a2) w) as [[[]|e] w1]; [|done].
  destruct (trigger_impl (TriggerCall a2 f a1) w1) as [r w2]. simpl.
  by rewrite <- app_assoc.
Qed.


End arena.


End HumanSpec.

(** ** ListRandom *)

Module RandomSpec.
Import Random.

Section choice.

Context {Actor : Type} `{Countable Actor}.
Variable Prob : Type.
Variable clean_p : list Actor → Prob → res Prob.
Variable weighted_choice :
  list Actor → Z → bool → Prob → M Generator (list Actor).

Lemma integers_below_lt (n : nat) (g : Generator) :
  (0 < n)%nat → ((integers_below n g).1 = Ok (tape g (cursor g) `mod` n)%nat)
  ∧ (tape g (cursor g) `mod` n < n)%nat.
Proof. intros Hn. split; [done|]. apply Nat.mod_upper_bound. lia. Qed.

Lemma draw_without_replacement_sample (k : nat) :
  ∀ (pool : list Actor) (g : Generator),
    (k ≤ length pool)%nat →
    ∃ sample g',
      draw_without_replacement k pool g = (Ok sample, g')
      ∧ length sample = k ∧ sample ⊆+ pool.
Proof.
  induction k as [|k IH]; intros pool g Hk.
  - exists [], g. repeat split. apply submseteq_nil_l.
  - simpl. unfold mbind at 1, M_bind at 1. unfold integers_below at 1.
    set (i := (tape g (cursor g) `mod` length pool)%nat).
    assert (Hi : (i < length pool)%nat)
      by (apply Nat.mod_upper_bound; lia).
    destruct (lookup_lt_is_Some_2 pool i Hi) as [a Ha]. rewrite Ha.
    destruct (IH (delete i pool)
                {| tape := tape g; cursor := S (cursor g) |})
      as (rest & g' & Hrest & Hlen & Hsub).
    { rewrite length_delete by eauto. lia. }
    exists (a :: rest), g'. unfold mbind, M_bind. rewrite Hrest. simpl.
    repeat split; [by rewrite Hlen|].
    rewrite (delete_Permutation pool i a Ha). by apply submseteq_skip.
Qed.

(** The guard of [choice] for [replace=False]: [size & ~False] is
    [size & -1], that is [size]. *)
Lemma guard_without_replacement (n size : Z) :
  bool_decide (n < Z.land size (Z.lnot (Z.b2z false)))
  = bool_decide (n < size).
Proof. simpl. change (Z.lnot 0) with (-1). by rewrite Z.land_m1_r. Qed.

Lemma choice_empty (r : ListRandom) (size : Z) (prob : option Prob)
    (replace as_list : bool) :
  actors r = [] →
  choice Prob clean_p weighted_choice size prob replace as_list r
  = (Raise ABSESpyError, r).
Proof.
  intros Hr. unfold choice, mbind, M_bind, get. simpl. rewrite Hr. simpl.
  reflexivity.
Qed.

Lemma choice_too_many (r : ListRandom) (size : Z) (prob : option Prob)
    (as_list : bool) :
  Z.of_nat (length (actors r)) < size →
  choice Prob clean_p weighted_choice size prob false as_list r
  = (Raise ABSESpyError, r).
Proof.
  intros Hr. unfold choice, mbind, M_bind, get. simpl.
  rewrite guard_without_replacement.
  rewrite (bool_decide_eq_true_2 (_ < size)) by done.
  by rewrite orb_true_r.
Qed.

Lemma choice_uniform (r : ListRandom) (size : Z) (as_list : bool) :
  actors r ≠ [] →
  size ≤ Z.of_nat (length (actors r)) →
  choice Prob clean_p weighted_choice size None false as_list r
  = match on_generator
            (generator_choice Prob weighted_choice (actors r) size false
               None) r with
    | (Ok sample, r') =>
        if bool_decide (size = 1) && negb as_list then
          match py_index sample 0 with
          | Ok a => (Ok (Single a), r')
          | Raise e => (Raise e, r')
          end
        else (Ok (Many sample), r')
    | (Raise e, r') => (Raise e, r')
    end.
Proof.
  intros Hne Hsize. unfold choice, mbind, M_bind, get. simpl.
  rewrite guard_without_replacement.
  rewrite (bool_decide_eq_false_2 (_ < size)) by lia.
  rewrite bool_decide_eq_false_2.
  2:{ destruct (actors r); [done | simpl; lia]. }
  simpl.
  destruct (on_generator _ r) as [[sample|e] r']; [|done].
  destruct (bool_decide (size = 1) && negb as_list); [|done].
  unfold lift. by destruct (py_index sample 0).
Qed.

(** C7, as amended.  [choice] raises ABSESpyError for every argument
    combination when the actors list is empty.  For a non-empty list
    and [replace=False] it raises ABSESpyError whenever [size] exceeds
    the number of actors; with no weights ([prob=None]) it raises
    ABSESpyError only then, raises numpy's ValueError for a negative
    [size], and for [0 <= size <= len(actors)] returns [size] chosen
    actors, taken from the list without repetition: a single actor when
    [size = 1] and [as_list] is False, an ActorsList otherwise. *)
Theorem choice_error_condition (r : ListRandom) (size : Z)
    (prob : option Prob) (replace as_list : bool) :
  let n := Z.of_nat (length (actors r)) in
  let run p := choice Prob clean_p weighted_choice size p false as_list r in
  (actors r = [] →
     choice Prob clean_p weighted_choice size prob replace as_list r
     = (Raise ABSESpyError, r))
  ∧ (actors r ≠ [] →
       (n < size → run prob = (Raise ABSESpyError, r))
     ∧ (size ≤ n → (run None).1 ≠ Raise ABSESpyError)
     ∧ (size < 0 → (run None).1 = Raise ValueError)
     ∧ (0 ≤ size ≤ n →
          ∃ sample g',
            length sample = Z.to_nat size ∧ sample ⊆+ actors r
            ∧ (run None).2 = {| actors := actors r; generator := g' |}
            ∧ returned_as size as_list sample (run None).1)).
Proof.
  intros n run. split; [apply choice_empty|]. intros Hne.
  split; [apply choice_too_many|].
  assert (Hneg : size < 0 → (run None).1 = Raise ValueError).
  { intros Hs. unfold run. rewrite choice_uniform by (done || lia).
    unfold on_generator, generator_choice.
    rewrite decide_True by done. reflexivity. }
  assert (Hpos : 0 ≤ size ≤ n →
          ∃ sample g',
            length sample = Z.to_nat size ∧ sample ⊆+ actors r
            ∧ (run None).2 = {| actors := actors r; generator := g' |}
            ∧ returned_as size as_list sample (run None).1).
  { intros [H0 Hn]. unfold run. rewrite choice_uniform by done.
    unfold on_generator, generator_choice.
    rewrite decide_False by lia.
    rewrite decide_False.
    2:{ intros [Hl _]. by destruct (actors r). }
    simpl. rewrite decide_False by (fold n; lia).
    destruct (draw_without_replacement_sample (Z.to_nat size) (actors r)
                (generator r)) as (sample & g' & Hd & Hlen & Hsub);
      [lia|].
    rewrite Hd. exists sample, g'. split; [done|]. split; [done|].
    unfold returned_as.
    destruct (bool_decide (size = 1) && negb as_list) eqn:Hone.
    - apply andb_true_iff in Hone as [->%bool_decide_eq_true _].
      destruct sample as [|a [|]]; try done.
      simpl. split; [done|]. by exists a.
    - done. }
  split; [|split; [exact Hneg | exact Hpos]].
  intros Hn Habs. destruct (decide (size < 0)) as [Hs|Hs].
  - rewrite (Hneg Hs) in Habs. discriminate.
  - destruct Hpos as (sample & g' & _ & _ & _ & Hret); [lia|].
    unfold returned_as in Hret. rewrite Habs in Hret.
    destruct (bool_decide (size = 1) && negb as_list);
      [by destruct Hret as (? & _ & ?) | done].
Qed.

End choice.

(** With one actor and [size = -1] the guard lets the call through
    ([1 < -1] is false) and numpy refuses the negative size: the call
    neither raises ABSESpyError nor returns a sample. *)
Lemma choice_negative_size :
  let r := {| actors := [7%nat]; generator := counting_generator |} in
  actors r ≠ []
  ∧ ¬ (Z.of_nat (length (actors r)) < -1)
  ∧ (choice unit keep_weights refuse_weights (-1) None false false r).1
    = Raise ValueError.
Proof. vm_compute. repeat split; try congruence. Qed.

(** With [replace=True] the guard compares with [size & -2]: two
    draws from one actor are refused, three draws from two actors are
    made. *)
Example choice_guard_with_replacement :
  (choice unit keep_weights refuse_weights 2 None true false
     {| actors := [7%nat]; generator := counting_generator |}).1
  = Raise ABSESpyError
  ∧ (choice unit keep_weights refuse_weights 3 None true false
       {| actors := [7; 8]%nat; generator := counting_generator |}).1
    = Ok (Many [7; 8; 7]%nat).
Proof. split; reflexivity. Qed.

Example choice_two_of_three :
  (choice unit keep_weights refuse_weights 2 None false false
     three_actors).1 = Ok (Many [7; 9]%nat).
Proof. reflexivity. Qed.

Section link.

Context {Actor : Type} `{Countable Actor}.

Lemma combinations2_elem (l : list Actor) (a b : Actor) :
  (a, b) ∈ combinations2 l → a ∈ l ∧ b ∈ l.
Proof.
  induction l as [|x t IH]; simpl; [by intros ?%elem_of_nil|].
  rewrite elem_of_app, list_elem_of_fmap.
  intros [(y & [= -> ->] & Hy)|Hin].
  - split; [left | by right].
  - destruct (IH Hin). split; by right.
Qed.

Lemma combinations2_covers (l : list Actor) (a b : Actor) :
  a ∈ l → b ∈ l → a ≠ b →
  (a, b) ∈ combinations2 l ∨ (b, a) ∈ combinations2 l.
Proof.
  induction l as [|x t IH]; [by intros ?%elem_of_nil|].
  simpl. rewrite !elem_of_cons, !elem_of_app, !list_elem_of_fmap.
  intros [->|Ha] [->|Hb] Hab; try done.
  - left; left. by exists b.
  - right; left. by exists a.
  - destruct (IH Ha Hb Hab); [left | right]; by right.
Qed.

Lemma combinations2_NoDup (l : list Actor) :
  NoDup l →
  NoDup (combinations2 l)
  ∧ ∀ a b, (a, b) ∈ combinations2 l → (b, a) ∉ combinations2 l.
Proof.
  induction 1 as [|x t Hx Ht [IH1 IH2]]; simpl.
  { split; [constructor | by intros ?? ?%elem_of_nil]. }
  split.
  - apply NoDup_app. split; [|split; [|done]].
    + apply NoDup_fmap_2; [|done]. by intros ?? [=].
    + intros [a b] (y & [= -> ->] & Hy)%list_elem_of_fmap
        [Hin _]%combinations2_elem. done.
  - intros a b. rewrite !elem_of_app, !list_elem_of_fmap.
    intros [(y & [= -> ->] & Hy)|Hin] [(z & [= -> ->] & Hz)|Hin'].
    + done.
    + by destruct (combinations2_elem _ _ _ Hin') as [? ?].
    + by destruct (combinations2_elem _ _ _ Hin) as [? ?].
    + by apply (IH2 a b).
Qed.

Lemma combinations2_length (l : list Actor) :
  (2 * length (combinations2 l) = length l * (length l - 1))%nat.
Proof.
  induction l as [|x t IH]; [done|].
  simpl. rewrite length_app, length_fmap. nia.
Qed.

(** The loop of [link], started with [acc] already linked. *)
Abbreviation link_loop lk p :=
  (λ '(actor1, actor2) (linked_combs : list (Actor * Actor)),
     u ← np_random_random;
     if (u <? p)%float then
       _ ← link_to actor1 actor2 lk true;
       mret (linked_combs ++ [(actor1, actor2)])
     else mret linked_combs).

Lemma link_loop_spec (lk : string) (p : float) (combs : list (Actor * Actor)) :
  ∀ (acc : list (Actor * Actor)) (g : globals (Actor := Actor)),
  ∃ linked g',
    for_fold combs acc (link_loop lk p) g = (Ok (acc ++ linked), g')
    ∧ linked `sublist_of` combs
    ∧ np_floats g' = np_floats g
    ∧ links g ⊆ links g'
    ∧ (∀ a b, (a, b) ∈ linked →
         (a, lk, b) ∈ links g' ∧ (b, lk, a) ∈ links g')
    ∧ ((∀ i, (np_floats g i <? p)%float = true) → linked = combs).
Proof.
  induction combs as [|[a1 a2] combs IH]; intros acc g.
  { exists [], g. simpl. rewrite app_nil_r.
    split; [done|]. split; [constructor|]. split; [done|].
    split; [done|]. split; [by intros ?? ?%elem_of_nil | done]. }
  simpl. unfold mbind at 1, M_bind at 1.
  unfold mbind at 1, M_bind at 1, np_random_random at 1.
  destruct (np_floats g (np_cursor g) <? p)%float eqn:Hu.
  - unfold mbind at 1, M_bind at 1, link_to at 1. simpl.
    match goal with |- context [for_fold combs ?acc' _ ?g1] =>
      destruct (IH acc' g1) as (linked & g' & Hrun & Hsub & Hfl & Hlk & Hin & Hall)
    end.
    simpl in *.
    exists ((a1, a2) :: linked), g'. rewrite Hrun.
    split; [by rewrite <- app_assoc|].
    split; [by constructor|]. split; [done|].
    split; [etrans; [apply union_subseteq_r | exact Hlk]|]. split.
    + intros a b [[= -> ->]|Hab]%elem_of_cons; [|by apply Hin].
      split; apply Hlk; rewrite !elem_of_union, !elem_of_singleton; auto.
    + intros Hone. by rewrite Hall.
  - simpl.
    match goal with |- context [for_fold combs acc _ ?g1] =>
      destruct (IH acc g1) as (linked & g' & Hrun & Hsub & Hfl & Hlk & Hin & Hall)
    end.
    simpl in *.
    exists linked, g'. rewrite Hrun.
    split; [done|]. split; [by constructor|]. split; [done|].
    split; [done|]. split; [done|].
    intros Hone. rewrite Hone in Hu. discriminate.
Qed.

(** C9. Random linking: [np.random.random()] returns floats below 1.0,
    so [link(link, p=1.0)] links every pair of [combinations(actors,
    2)] in both directions and returns exactly those [n*(n-1)/2] pairs
    in that order; any two distinct actors of the list are linked, and
    when the list has no repetition every unordered pair occurs once.
    For every [p] the returned pairs are a subsequence of the
    combinations. *)
Theorem link_probability_one (self : ListRandom (Actor := Actor))
    (lk : string) (g : globals (Actor := Actor)) :
  (∀ i, (np_floats g i <? 1)%float = true) →
  let combs := combinations2 (actors self) in
  let n := length (actors self) in
  (∃ g', link self lk 1%float g = (Ok combs, g')
         ∧ ∀ a b, a ∈ actors self → b ∈ actors self → a ≠ b →
             (a, lk, b) ∈ links g' ∧ (b, lk, a) ∈ links g')
  ∧ length combs = (n * (n - 1) / 2)%nat
  ∧ (NoDup (actors self) →
       NoDup combs ∧ ∀ a b, (a, b) ∈ combs → (b, a) ∉ combs)
  ∧ (∀ p, ∃ linked g',
       link self lk p g = (Ok linked, g') ∧ linked `sublist_of` combs).
Proof.
  intros Hunit combs n. split; [|split; [|split]].
  - destruct (link_loop_spec lk 1%float combs [] g)
      as (linked & g' & Hrun & _ & _ & _ & Hin & Hall).
    rewrite (Hall Hunit) in *. exists g'. split; [exact Hrun|].
    intros a b Ha Hb Hab.
    destruct (combinations2_covers _ a b Ha Hb Hab) as [Hc|Hc];
      destruct (Hin _ _ Hc); done.
  - unfold combs, n. pose proof (combinations2_length (actors self)) as Hl.
    apply Nat.div_unique_exact; lia.
  - apply combinations2_NoDup.
  - intros p. destruct (link_loop_spec lk p combs [] g)
      as (linked & g' & Hrun & Hsub & _). by exists linked, g'.
Qed.

End link.

Lemma link_probability_one_witness :
  (link three_actors "friend" 1%float one_half).1
  = Ok [(7, 8); (7, 9); (8, 9)]%nat.
Proof.
  destruct (link_probability_one three_actors "friend" one_half)
    as [(g' & Hrun & _) _]; [reflexivity|].
  by rewrite Hrun.
Defined.

End RandomSpec.

(** ** PatchModule *)

Module NatureSpec.
Import PythonSpec NumpySpec Numpy Nature.

(** *** Neighbourhoods *)

#[local] Instance coord_le_trans : Transitive coord_le.
Proof. intros [] [] []; unfold coord_le; simpl; lia. Qed.

#[local] Instance coord_le_total : Total coord_le.
Proof. intros [] []; unfold coord_le; simpl; lia. Qed.

#[local] Instance coord_le_antisymm : AntiSymm (=) coord_le.
Proof.
  intros [] []; unfold coord_le; simpl; intros; f_equal; lia.
Qed.

Lemma sorted_spec (s : gset (Z * Z)) :
  (∀ c, c ∈ sorted s ↔ c ∈ s)
  ∧ StronglySorted coord_le (sorted s)
  ∧ NoDup (sorted s).
Proof.
  unfold sorted. split; [|split].
  - intros c. rewrite merge_sort_Permutation. apply elem_of_elements.
  - apply StronglySorted_merge_sort; apply _.
  - rewrite merge_sort_Permutation. apply NoDup_elements.
Qed.

Section neighbourhood.

Variable s : PatchModule.
Variables x y : Z.
Variables moore include_center : bool.
Variable radius : Z.

#[local] Abbreviation visit :=
  (Nature.visit s x y moore include_center radius).
#[local] Abbreviation kept := (Nature.kept s x y moore include_center radius).

Lemma visit_spec (coordinates : gset (Z * Z)) (d c : Z * Z) :
  c ∈ visit coordinates d
  ↔ c ∈ coordinates ∨ (kept d ∧ c = (x + d.2, y + d.1)).
Proof.
  destruct d as [dy dx]. unfold Nature.visit, Nature.kept, fst, snd.
  generalize (out_of_bounds s (x + dx, y + dy)). intros oob.
  destruct (bool_decide_reflect (dx = 0)),
    (bool_decide_reflect (dy = 0)),
    include_center, moore,
    (bool_decide_reflect (Z.abs dx + Z.abs dy > radius)),
    oob; cbn [andb negb];
    rewrite ?elem_of_union, ?elem_of_singleton;
    intuition (try congruence; try lia).
Qed.

Lemma visit_all_spec (ds : list (Z * Z)) :
  ∀ (coordinates : gset (Z * Z)) (c : Z * Z),
    c ∈ foldl visit coordinates ds
    ↔ c ∈ coordinates ∨ ∃ d, d ∈ ds ∧ kept d ∧ c = (x + d.2, y + d.1).
Proof.
  induction ds as [|d ds IH]; intros coordinates c; simpl.
  - split; [by left|]. intros [?|(d & Hd%elem_of_nil & _)]; done.
  - rewrite IH, visit_spec. split.
    + intros [[?|[? ?]]|(d' & ? & ? & ?)].
      * by left.
      * right. exists d. split; [left|done].
      * right. exists d'. split; [by right|done].
    + intros [?|(d' & [->|?]%elem_of_cons & ? & ?)].
      * left; by left.
      * left; by right.
      * right. by exists d'.
Qed.

Lemma get_neighborhood_unfold :
  get_neighborhood s (x, y) moore include_center radius
  = sorted (foldl visit ∅
              (list_prod (range2 (- radius) (radius + 1))
                         (range2 (- radius) (radius + 1)))).
Proof. reflexivity. Qed.

Lemma get_neighborhood_elem (c : Z * Z) :
  c ∈ get_neighborhood s (x, y) moore include_center radius
  ↔ in_neighborhood s (x, y) moore include_center radius c.
Proof.
  rewrite get_neighborhood_unfold.
  destruct (sorted_spec (foldl visit ∅
              (list_prod (range2 (- radius) (radius + 1))
                         (range2 (- radius) (radius + 1))))) as [-> _].
  rewrite visit_all_spec. unfold in_neighborhood, Nature.kept.
  destruct c as [cx cy]. simpl. split.
  - intros [?%elem_of_empty|([dy dx] & Hd & (Hc & Hm & Hb) & [= -> ->])];
      [done|].
    apply list_elem_of_In, in_prod_iff in Hd.
    rewrite <- !list_elem_of_In, !elem_of_range2 in Hd. simpl in *.
    split; [done|]. split; [lia|]. split; [lia|]. split.
    + intros ->. destruct (decide (Z.abs (x + dx - x) + Z.abs (y + dy - y)
                                   ≤ radius)); [done|].
      exfalso. apply Hm. split; [done|]. lia.
    + intros [= Hx Hy]. destruct include_center; [done|].
      exfalso. apply Hc. repeat split; lia.
  - intros (Hb & Hdx & Hdy & Hm & Hc). right.
    exists (cy - y, cx - x). simpl.
    split; [|split; [split; [|split]|]].
    + apply list_elem_of_In, in_prod_iff.
      rewrite <- !list_elem_of_In, !elem_of_range2. lia.
    + intros (Hx & Hy & Hi). rewrite Hc in Hi; [done|]. f_equal; lia.
    + intros [Hmo Hgt]. specialize (Hm Hmo). lia.
    + by replace (x + (cx - x)) with cx by lia;
        replace (y + (cy - y)) with cy by lia.
    + f_equal; lia.
Qed.

End neighbourhood.

(** C3. Neighbourhood query: for an in-bounds position and a radius of
    at least 1, [get_neighborhood] returns exactly the in-bounds
    coordinates within [radius] of the position along both axes (and
    within Manhattan distance [radius] when [moore] is False), without
    the position itself unless [include_center]; the list is sorted and
    has no duplicates. *)
Theorem get_neighborhood_exact (s : PatchModule) (x y : Z)
    (moore include_center : bool) (radius : Z) :
  out_of_bounds s (x, y) = false →
  1 ≤ radius →
  let result := get_neighborhood s (x, y) moore include_center radius in
  (∀ c, c ∈ result
        ↔ in_neighborhood s (x, y) moore include_center radius c)
  ∧ StronglySorted coord_le result
  ∧ NoDup result.
Proof.
  intros _ _ result. split; [|split].
  - intros c. apply get_neighborhood_elem.
  - unfold result. rewrite get_neighborhood_unfold. apply sorted_spec.
  - unfold result. rewrite get_neighborhood_unfold. apply sorted_spec.
Qed.

Lemma get_neighborhood_exact_witness :
  get_neighborhood three_by_two (0, 0) true false 1
  = [(0, 1); (1, 0); (1, 1)]
  ∧ (∀ c, c ∈ get_neighborhood three_by_two (0, 0) true false 1
          ↔ in_neighborhood three_by_two (0, 0) true false 1 c).
Proof.
  split; [reflexivity|].
  apply (get_neighborhood_exact three_by_two 0 0 true false 1);
    [reflexivity | lia].
Defined.

(** *** The constructor *)

Section constructor.

Context {V : Type}.

Lemma alloc_fresh (c : PatchCell V) (w : world V) :
  ∃ l, alloc V c w = (Ok l, {| heap := <[l := c]> (heap w); self := self w |})
       ∧ heap w !! l = None.
Proof.
  exists (fresh (dom (heap w))). split; [done|].
  apply not_elem_of_dom, is_fresh.
Qed.

(** The inner loop of the constructor builds one column. *)
Lemma init_column (h x : Z) (w : world V) :
  ∃ col w',
    for_fold (range h) []
      (λ y col,
         cell ← alloc V {| pos := (x, y); indices := (h - y - 1, x);
                           attrs := ∅ |};
         mret (col ++ [cell])) w
    = (Ok col, w')
    ∧ self w' = self w
    ∧ heap w ⊆ heap w'
    ∧ dom (heap w') = dom (heap w) ∪ list_to_set col
    ∧ NoDup col
    ∧ (∀ c, c ∈ col → c ∉ dom (heap w))
    ∧ Forall2 (λ c y, heap w' !! c = Some (new_cell h x y)) col (range h).
Proof.
  apply (for_fold_inv
    (λ pre (col : list loc) (w' : world V),
       self w' = self w
       ∧ heap w ⊆ heap w'
       ∧ dom (heap w') = dom (heap w) ∪ list_to_set col
       ∧ NoDup col
       ∧ (∀ c, c ∈ col → c ∉ dom (heap w))
       ∧ Forall2 (λ c y, heap w' !! c = Some (new_cell h x y)) col pre)
    (range h) _ [] [] w).
  { repeat split; try done.
    - simpl. by rewrite union_empty_r_L.
    - constructor.
    - by intros c ?%elem_of_nil. }
  intros pre y post col w1 _ (Hself & Hsub & Hdom & Hnd & Hfresh & Hall).
  unfold mbind, M_bind.
  destruct (alloc_fresh {| pos := (x, y); indices := (h - y - 1, x);
                           attrs := ∅ |} w1) as (l & -> & Hl).
  eexists _, _. split; [reflexivity|]. cbn [self heap].
  assert (Hlcol : l ∉ col).
  { intros Hin. apply not_elem_of_dom in Hl. apply Hl. rewrite Hdom.
    apply elem_of_union_r. by apply elem_of_list_to_set. }
  split; [done|]. split.
  { etrans; [exact Hsub|]. by apply insert_subseteq. }
  split.
  { rewrite dom_insert_L, Hdom, list_to_set_app_L. simpl.
    rewrite union_empty_r_L. apply set_eq. intros z.
    rewrite !elem_of_union. tauto. }
  split.
  { apply NoDup_app. split; [done|]. split; [|apply NoDup_singleton].
    intros c Hc ->%list_elem_of_singleton. done. }
  split.
  { intros c [Hc| ->%list_elem_of_singleton]%elem_of_app; [by apply Hfresh|].
    intros Hin. apply not_elem_of_dom in Hl. apply Hl. rewrite Hdom.
    by apply elem_of_union_l. }
  apply Forall2_app.
  - eapply Forall2_impl; [exact Hall|]. intros c y' Hc. simpl in Hc.
    rewrite lookup_insert_ne; [done|]. intros ->. congruence.
  - constructor; [|constructor]. by rewrite lookup_insert_eq.
Qed.

(** What the constructor leaves behind. *)
Lemma init_spec (w h : Z) (w0 : world V) :
  ∃ w1,
    __init__ V w h w0 = (Ok tt, w1)
    ∧ width (self w1) = w ∧ height (self w1) = h
    ∧ _attributes (self w1) = ∅
    ∧ heap w0 ⊆ heap w1
    ∧ NoDup (concat (_cells (self w1)))
    ∧ (∀ c, c ∈ concat (_cells (self w1)) → c ∉ dom (heap w0))
    ∧ Forall2
        (λ col x,
           Forall2 (λ c y, heap w1 !! c = Some (new_cell h x y))
                   col (range h))
        (_cells (self w1)) (range w).
Proof.
  unfold __init__. unfold mbind at 1, M_bind at 1, set_self at 1.
  unfold mbind at 1, M_bind at 1.
  match goal with |- context [for_each _ ?body ?s] =>
    destruct (for_each_inv
      (λ pre (w' : world V),
         width (self w') = w ∧ height (self w') = h
         ∧ _attributes (self w') = ∅
         ∧ heap w0 ⊆ heap w'
         ∧ dom (heap w')
           = dom (heap w0) ∪ list_to_set (concat (_cells (self w')))
         ∧ NoDup (concat (_cells (self w')))
         ∧ (∀ c, c ∈ concat (_cells (self w')) → c ∉ dom (heap w0))
         ∧ Forall2
             (λ col x,
                Forall2 (λ c y, heap w' !! c = Some (new_cell h x y))
                        col (range h))
             (_cells (self w')) pre)
      (range w) body [] s) as (w1 & Hrun & HI)
  end.
  { simpl. repeat split; try done; try (by constructor);
      try (by intros c ?%elem_of_nil). by rewrite union_empty_r_L. }
  { intros pre x post w' _ (Hw & Hh & Ha & Hsub & Hdom & Hnd & Hfresh & Hall).
    unfold mbind at 1, M_bind at 1.
    destruct (init_column h x w')
      as (col & w2 & -> & Hself & Hsub2 & Hdom2 & Hnd2 & Hfresh2 & Hcol).
    unfold append_column, mbind, M_bind, get, set_self.
    eexists. split; [reflexivity|]. cbn [self heap width height _cells
                                         _attributes].
    rewrite Hself. rewrite concat_app. simpl. rewrite app_nil_r.
    split; [done|]. split; [done|]. split; [done|].
    split; [by etrans|]. split.
    { rewrite Hdom2, Hdom, list_to_set_app_L. apply set_eq. intros z.
      rewrite !elem_of_union. tauto. }
    split.
    { apply NoDup_app. split; [done|]. split; [|done].
      intros c Hc Hc2. apply (Hfresh2 c Hc2). rewrite Hdom.
      apply elem_of_union_r. by apply elem_of_list_to_set. }
    split.
    { intros c [Hc|Hc]%elem_of_app; [by apply Hfresh|].
      intros Hin. apply (Hfresh2 c Hc). rewrite Hdom.
      by apply elem_of_union_l. }
    apply Forall2_app.
    - eapply Forall2_impl; [exact Hall|]. intros col' x' Hcol'.
      eapply Forall2_impl; [exact Hcol'|]. intros c y Hc. simpl in *.
      by eapply lookup_weaken.
    - by constructor. }
  rewrite Hrun. simpl in HI.
  destruct HI as (? & ? & ? & ? & _ & ? & ? & ?).
  unfold reset_attributes, mbind, M_bind, get, set_self.
  eexists. split; [reflexivity|].
  cbn [self heap width height _cells _attributes]. done.
Qed.

Lemma init_wf (w h : Z) (w0 w1 : world V) :
  0 ≤ w → 0 ≤ h → __init__ V w h w0 = (Ok tt, w1) → wf_layer w1.
Proof.
  intros Hw Hh Hinit.
  destruct (init_spec w h w0)
    as (w1' & Hrun & Hwd & Hht & _ & _ & Hnd & _ & Hall).
  rewrite Hinit in Hrun. injection Hrun as <-.
  split; rewrite ?Hwd, ?Hht; try done.
  - by rewrite (Forall2_length _ _ _ Hall), length_range.
  - apply Forall_forall. intros col Hcol.
    apply list_elem_of_lookup in Hcol as [i Hi].
    destruct (Forall2_lookup_l _ _ _ _ _ Hall Hi) as (x & _ & Hc).
    by rewrite (Forall2_length _ _ _ Hc), length_range.
  - intros c (col & Hc & Hcol)%elem_of_concat.
    apply list_elem_of_lookup in Hcol as [i Hi].
    destruct (Forall2_lookup_l _ _ _ _ _ Hall Hi) as (x & _ & Hx).
    apply list_elem_of_lookup in Hc as [j Hj].
    destruct (Forall2_lookup_l _ _ _ _ _ Hx Hj) as (y & _ & Hy).
    eauto.
Qed.

End constructor.

(** *** The grid of a well-formed layer *)

Section grid.

Context {V : Type}.
Variable w : world V.
Hypothesis Hwf : wf_layer w.

Lemma grid_at_Some (x y : Z) :
  0 ≤ x < width (self w) → 0 ≤ y < height (self w) →
  ∃ c, grid_at w x y = Some c.
Proof.
  intros Hx Hy. destruct Hwf as [_ _ Hcols Hrows _ _]. unfold grid_at.
  destruct (lookup_lt_is_Some_2 (_cells (self w)) (Z.to_nat x))
    as [col Hcol]; [lia|].
  rewrite Hcol. simpl. apply lookup_lt_is_Some_2.
  rewrite Forall_forall in Hrows. rewrite (Hrows col); [lia|].
  by eapply list_elem_of_lookup_2.
Qed.

Lemma grid_at_concat (x y : Z) :
  0 ≤ x → 0 ≤ y < height (self w) →
  grid_at w x y
  = concat (_cells (self w))
      !! (Z.to_nat x * Z.to_nat (height (self w)) + Z.to_nat y)%nat.
Proof.
  intros Hx Hy. unfold grid_at.
  rewrite (lookup_concat_uniform _ _ (wf_rows w Hwf)) by lia. done.
Qed.

Lemma grid_at_elem (x y : Z) (c : loc) :
  grid_at w x y = Some c → c ∈ concat (_cells (self w)).
Proof.
  unfold grid_at. intros Hg.
  destruct (_cells (self w) !! Z.to_nat x) as [col|] eqn:Hcol; [|done].
  simpl in Hg. apply elem_of_concat. exists col.
  split; by eapply list_elem_of_lookup_2.
Qed.

Lemma grid_at_alive (x y : Z) (c : loc) :
  grid_at w x y = Some c → is_Some (heap w !! c).
Proof. intros Hg. by eapply (wf_alive w Hwf), grid_at_elem. Qed.

(** Different positions hold different cells. *)
Lemma grid_at_inj (x y x' y' : Z) (c : loc) :
  0 ≤ x → 0 ≤ y < height (self w) →
  0 ≤ x' → 0 ≤ y' < height (self w) →
  grid_at w x y = Some c → grid_at w x' y' = Some c →
  x = x' ∧ y = y'.
Proof.
  intros Hx Hy Hx' Hy'. rewrite !grid_at_concat by done. intros H1 H2.
  pose proof (NoDup_lookup _ _ _ _ (wf_distinct w Hwf) H1 H2) as Heq.
  assert (Z.to_nat x = Z.to_nat x') by nia. split; nia.
Qed.

Lemma cells_at_grid (x y : Z) (c : loc) :
  0 ≤ x → 0 ≤ y → grid_at w x y = Some c →
  cells_at V x y w = (Ok c, w).
Proof.
  intros Hx Hy. unfold grid_at, cells_at, mbind, M_bind, get, lift.
  destruct (_cells (self w) !! Z.to_nat x) as [col|] eqn:Hcol; [|done].
  simpl. intros Hc.
  rewrite (py_index_nonneg _ _ _ Hx Hcol).
  by rewrite (py_index_nonneg _ _ _ Hy Hc).
Qed.

Lemma array_cells_grid (x y : Z) (c : loc) :
  0 ≤ x < width (self w) → 0 ≤ y < height (self w) →
  grid_at w x y = Some c →
  ∃ arr, array_cells V w = (Ok arr, w)
         ∧ shape arr = [Z.to_nat (height (self w));
                        Z.to_nat (width (self w))]
         ∧ nd_item arr [height (self w) - 1 - y; x] = Ok c.
Proof.
  intros Hx Hy Hc.
  set (W := Z.to_nat (width (self w))).
  set (H := Z.to_nat (height (self w))).
  assert (Hne : _cells (self w) ≠ []).
  { intros Hnil. pose proof (wf_columns w Hwf) as Hl.
    rewrite Hnil in Hl. simpl in Hl. lia. }
  unfold array_cells, mbind, M_bind, get, lift.
  rewrite (np_array_uniform _ H Hne (wf_rows w Hwf)).
  rewrite (wf_columns w Hwf). fold W.
  set (a := NDArray [W; H] (concat (_cells (self w)))).
  destruct (transpose_2 a W H (Z.to_nat x) (Z.to_nat y) eq_refl)
    as [HsT HdT]; [lia | lia |].
  destruct (flipud_2 (transpose a) H W (H - 1 - Z.to_nat y) (Z.to_nat x) HsT)
    as (arr & -> & Hs & Hd); [lia | lia |].
  exists arr. split; [done|]. split; [done|].
  apply (nd_item_2 arr H W); [done | lia | lia |].
  replace (Z.to_nat (height (self w) - 1 - y)) with (H - 1 - Z.to_nat y)%nat
    by lia.
  rewrite Hd. f_equal.
  replace (H - 1 - (H - 1 - Z.to_nat y))%nat with (Z.to_nat y) by lia.
  rewrite (list_lookup_total_correct _ _ _ HdT).
  apply list_lookup_total_correct. simpl.
  by rewrite <- grid_at_concat by lia.
Qed.

End grid.

(** C4. Grid coherence: a layer constructed with width [w] and height
    [h] holds [w*h] cells, all different; for every [0 <= x < w] and
    [0 <= y < h], [layer[x, y]] is the cell created at position
    [(x, y)], the only cell of the grid with that position, its indices
    are [(h-1-y, x)], and [array_cells[h-1-y, x]] is that same cell. *)
Theorem grid_coherence {V : Type} (w h : Z) (w0 : world V) :
  0 ≤ w → 0 ≤ h →
  ∃ w1,
    __init__ V w h w0 = (Ok tt, w1)
    ∧ width (self w1) = w ∧ height (self w1) = h
    ∧ length (concat (_cells (self w1))) = Z.to_nat (w * h)
    ∧ NoDup (concat (_cells (self w1)))
    ∧ ∀ x y, 0 ≤ x < w → 0 ≤ y < h →
        ∃ c cell,
          __getitem__ V (IndexPair (Int x) (Int y)) w1 = (Ok (Cell c), w1)
          ∧ heap w1 !! c = Some cell
          ∧ pos cell = (x, y)
          ∧ indices cell = (h - 1 - y, x)
          ∧ (∀ c' cell', c' ∈ concat (_cells (self w1)) →
               heap w1 !! c' = Some cell' → pos cell' = (x, y) → c' = c)
          ∧ ∃ arr, array_cells V w1 = (Ok arr, w1)
                   ∧ nd_item arr [h - 1 - y; x] = Ok c.
Proof.
  intros Hw Hh.
  destruct (init_spec w h w0)
    as (w1 & Hrun & Hwd & Hht & _ & _ & Hnd & _ & Hall).
  pose proof (init_wf w h w0 w1 Hw Hh Hrun) as Hwf.
  exists w1. split; [done|]. split; [done|]. split; [done|].
  split.
  { rewrite (length_concat_uniform _ _ (wf_rows w1 Hwf)).
    rewrite (wf_columns w1 Hwf), Hwd, Hht. nia. }
  split; [done|].
  intros x y Hx Hy.
  assert (Hcell : ∀ x' y' c', 0 ≤ x' < w → 0 ≤ y' < h →
            grid_at w1 x' y' = Some c' →
            heap w1 !! c' = Some (new_cell h x' y')).
  { intros x' y' c' Hx' Hy'. unfold grid_at.
    destruct (_cells (self w1) !! Z.to_nat x') as [col|] eqn:Hcol; [|done].
    simpl. intros Hc'.
    destruct (Forall2_lookup_l _ _ _ _ _ Hall Hcol) as (xv & Hxv & Hc).
    rewrite lookup_range in Hxv by lia. injection Hxv as <-.
    destruct (Forall2_lookup_l _ _ _ _ _ Hc Hc') as (yv & Hyv & Hcell).
    rewrite lookup_range in Hyv by lia. injection Hyv as <-.
    by rewrite !Z2Nat.id in Hcell by lia. }
  destruct (grid_at_Some w1 Hwf x y) as [c Hc]; [lia | lia |].
  exists c, (new_cell h x y).
  split.
  { unfold __getitem__, mbind at 1, M_bind at 1, get at 1.
    unfold mbind, M_bind. by rewrite (cells_at_grid w1 x y c) by (done || lia). }
  split; [by apply Hcell|]. split; [done|].
  split; [simpl; f_equal; lia|]. split.
  - intros c' cell' Hin Hheap Hpos.
    apply list_elem_of_lookup in Hin as [k Hk].
    pose proof (lookup_lt_Some _ _ _ Hk) as Hlt.
    rewrite (length_concat_uniform _ _ (wf_rows w1 Hwf)) in Hlt.
    rewrite (wf_columns w1 Hwf), Hwd, Hht in Hlt.
    set (H := Z.to_nat h) in *.
    assert (HH : (0 < H)%nat) by lia.
    assert (Hk' : k = (k `div` H * H + k `mod` H)%nat).
    { rewrite Nat.mul_comm. apply Nat.div_mod_eq. }
    assert (Hmod : (k `mod` H < H)%nat) by (apply Nat.mod_upper_bound; lia).
    assert (Hdiv : (k `div` H < Z.to_nat w)%nat).
    { apply Nat.Div0.div_lt_upper_bound. lia. }
    set (q := (k `div` H)%nat) in *. set (r := (k `mod` H)%nat) in *.
    clearbody q r.
    assert (Hg : grid_at w1 (Z.of_nat q) (Z.of_nat r) = Some c').
    { rewrite grid_at_concat by (done || lia).
      rewrite Hht, !Nat2Z.id. fold H. by rewrite <- Hk'. }
    rewrite (Hcell (Z.of_nat q) (Z.of_nat r) c' ltac:(lia) ltac:(lia) Hg)
      in Hheap.
    injection Hheap as <-. simpl in Hpos. injection Hpos as Hx' Hy'.
    rewrite Hx', Hy' in Hg. congruence.
  - destruct (array_cells_grid w1 Hwf x y c) as (arr & Harr & _ & Hitem);
      [lia | lia | done |].
    exists arr. split; [done|]. by rewrite Hht in Hitem.
Qed.

Lemma grid_coherence_witness :
  ∃ w1 : world Z,
    __init__ Z 3 2 empty_world = (Ok tt, w1)
    ∧ length (concat (_cells (self w1))) = 6%nat.
Proof.
  destruct (grid_coherence (V := Z) 3 2 empty_world)
    as (w1 & Hrun & _ & _ & Hlen & _); [lia | lia |].
  exists w1. split; [exact Hrun | exact Hlen].
Defined.

(** The layer of the examples: columns [[0; 1]], [[2; 3]], [[4; 5]];
    seen as an array, row 0 is the top row [y = 1]. *)
Example three_by_two_constructed :
  self (__init__ Z 3 2 empty_world).2 = three_by_two
  ∧ (array_cells Z (__init__ Z 3 2 empty_world).2).1
    = Ok (NDArray [2; 3]%nat [1; 3; 5; 0; 2; 4]%nat)
  ∧ (__getitem__ Z (IndexPair (Int 2) (Int 1))
       (__init__ Z 3 2 empty_world).2).1 = Ok (Cell 5)
  ∧ (__getitem__ Z (IndexPair (Int (-1)) (Int (-1)))
       (__init__ Z 3 2 empty_world).2).1 = Ok (Cell 5)
  ∧ (__getitem__ Z (IndexPair (Int 1) (Slice None None))
       (__init__ Z 3 2 empty_world).2).1 = Ok (Cells [2; 3]%nat)
  ∧ (__getitem__ Z (IndexCoords [(0, 1); (2, 0)])
       (__init__ Z 3 2 empty_world).2).1 = Ok (Cells [1; 4]%nat)
  ∧ (__getitem__ Z (IndexPair (Int 3) (Int 0))
       (__init__ Z 3 2 empty_world).2).1 = Raise IndexError.
Proof. by vm_compute. Qed.

(** *** Methods that do not raise ValueError *)

Section no_value_error.

Context {S : Type}.

Lemma no_value_error_ret {A} (a : A) : no_value_error (S := S) (mret a).
Proof. by intros s. Qed.

Lemma no_value_error_lift {A} (r : res A) :
  r ≠ Raise ValueError → no_value_error (S := S) (lift r).
Proof. by intros Hr s. Qed.

Lemma no_value_error_bind {A B} (m : M S A) (k : A → M S B) :
  no_value_error m → (∀ a, no_value_error (k a)) →
  no_value_error (m ≫= k).
Proof.
  intros Hm Hk s. unfold mbind, M_bind. specialize (Hm s).
  destruct (m s) as [[a|e] s']; simpl in *; [apply Hk | congruence].
Qed.

Lemma no_value_error_for_each {A} (l : list A) (body : A → M S unit) :
  (∀ x, no_value_error (body x)) → no_value_error (for_each l body).
Proof.
  intros Hbody. induction l as [|x l IH]; simpl.
  - apply no_value_error_ret.
  - apply no_value_error_bind; [apply Hbody | by intros _].
Qed.

Lemma py_index_no_value_error {A} (l : list A) (i : Z) :
  py_index l i ≠ Raise ValueError.
Proof.
  unfold py_index. cbv zeta. destruct (decide _); [|done].
  by destruct (l !! _).
Qed.

Lemma norm_indices_no_value_error (s : list nat) :
  ∀ idx, norm_indices s idx ≠ Raise ValueError.
Proof.
  induction s as [|n s IH]; intros [|i idx]; simpl; try done.
  unfold mbind, res_bind, norm_index. cbv zeta.
  destruct (decide _); [|done]. specialize (IH idx).
  by destruct (norm_indices s idx).
Qed.

Lemma nd_item_no_value_error {A} (a : ndarray A) (idx : list Z) :
  nd_item a idx ≠ Raise ValueError.
Proof.
  unfold nd_item, mbind, res_bind.
  pose proof (norm_indices_no_value_error (shape a) idx).
  destruct (norm_indices (shape a) idx); [|intros [= ->]; by apply H].
  by destruct (data a !! _).
Qed.

End no_value_error.

(** *** apply_raster and get_raster *)

Section raster.

Context {V : Type}.
Variable float64 : V → res float.
Variable cell_properties : gset string.
Variable _dynamic_variables : gset string.
Variable cell_cls_dict_len : nat.
Variable garbage : nat → float.
Variable property_get : string → PatchCell V → res V.
Variable property_set : string → V → PatchCell V → res (PatchCell V).
Variable dynamic_raster : string → M (world V) (ndarray V).

#[local] Abbreviation apply_raster' :=
  (apply_raster V cell_properties cell_cls_dict_len property_set).
#[local] Abbreviation get_raster' :=
  (get_raster V float64 cell_properties _dynamic_variables garbage
     property_get dynamic_raster).
#[local] Abbreviation readable := (Nature.readable float64).
#[local] Abbreviation filled := (Nature.filled float64).
#[local] Abbreviation setattr' := (setattr V cell_properties property_set).
#[local] Abbreviation getattr' := (getattr V cell_properties property_get).

#[local] Abbreviation stored_name := (Nature.stored_name cell_cls_dict_len).

Lemma apply_raster_mismatch (d : ndarray V) (attr_name : option string)
    (w : world V) :
  Z.of_nat <$> shape d ≠ [1; height (self w); width (self w)] →
  apply_raster' d attr_name w = (Raise ValueError, w).
Proof.
  intros Hs. unfold apply_raster, mbind, M_bind, get.
  by rewrite decide_True.
Qed.

Lemma apply_raster_match (d : ndarray V) (attr_name : option string)
    (w : world V) :
  Z.of_nat <$> shape d = [1; height (self w); width (self w)] →
  apply_raster' d attr_name w
  = for_each (range (width (self w)))
      (λ x, for_each (range (height (self w)))
         (λ y, c ← cells_at V x y;
               v ← lift (nd_item d [0; height (self w) - y - 1; x]);
               setattr' c (stored_name attr_name) v))
      (add_attribute V (stored_name attr_name) w).2.
Proof.
  intros Hs. unfold apply_raster, mbind at 1, M_bind at 1, get at 1.
  rewrite decide_False by (by intros ?).
  unfold mbind at 1, M_bind at 1. by destruct attr_name.
Qed.

Lemma setattr_no_value_error (c : loc) (name : string) (v : V) :
  (∀ n v' cell, n ∈ cell_properties →
     property_set n v' cell ≠ Raise ValueError) →
  no_value_error (setattr' c name v).
Proof.
  intros Hset w. unfold setattr, mbind, M_bind, get.
  destruct (heap w !! c) as [cell|]; [|done].
  destruct (decide (name ∈ cell_properties)) as [Hin|]; [|done].
  unfold lift. specialize (Hset name v cell Hin).
  destruct (property_set name v cell); [done|].
  intros [= ->]. by apply Hset.
Qed.

Lemma cells_at_no_value_error (x y : Z) : no_value_error (cells_at V x y).
Proof.
  intros w. unfold cells_at, mbind, M_bind, get, lift.
  pose proof (py_index_no_value_error (_cells (self w)) x).
  destruct (py_index (_cells (self w)) x) as [col|];
    [|intros [= ->]; by apply H].
  apply py_index_no_value_error.
Qed.

Lemma setattr_plain (c : loc) (name : string) (v : V) (cell : PatchCell V)
    (w : world V) :
  name ∉ cell_properties → heap w !! c = Some cell →
  setattr' c name v w
  = (Ok tt,
     {| heap := <[c := {| pos := pos cell; indices := indices cell;
                          attrs := <[name := v]> (attrs cell) |}]> (heap w);
        self := self w |}).
Proof.
  intros Hn Hc. unfold setattr, mbind, M_bind, get. rewrite Hc.
  by rewrite decide_False.
Qed.

Lemma getattr_plain (c : loc) (name : string) (v : V) (cell : PatchCell V)
    (w : world V) :
  name ∉ cell_properties → heap w !! c = Some cell →
  attrs cell !! name = Some v →
  getattr' c name w = (Ok v, w).
Proof.
  intros Hn Hc Hv. unfold getattr, mbind, M_bind, get. rewrite Hc.
  rewrite decide_False by done. by rewrite Hv.
Qed.

Lemma nd_item_3_wf (d : ndarray V) (H W : nat) (i j : Z) :
  wf_ndarray d → shape d = [1%nat; H; W] →
  0 ≤ i < Z.of_nat H → 0 ≤ j < Z.of_nat W →
  ∃ v, nd_item d [0; i; j] = Ok v.
Proof.
  intros Hwf Hs Hi Hj.
  destruct (lookup_lt_is_Some_2 (data d) (Z.to_nat i * W + Z.to_nat j))
    as [v Hv].
  { rewrite Hwf, Hs. simpl. nia. }
  exists v. by apply (nd_item_3 d H W).
Qed.

Lemma nd_item_3_inv (d : ndarray V) (H W : nat) (i j : Z) (v : V) :
  shape d = [1%nat; H; W] →
  0 ≤ i < Z.of_nat H → 0 ≤ j < Z.of_nat W →
  nd_item d [0; i; j] = Ok v →
  data d !! (Z.to_nat i * W + Z.to_nat j)%nat = Some v.
Proof.
  intros Hs Hi Hj Hv.
  destruct (data d !! (Z.to_nat i * W + Z.to_nat j)%nat) as [v'|] eqn:Hl.
  - rewrite (nd_item_3 d H W i j v' Hs Hi Hj Hl) in Hv. congruence.
  - unfold nd_item in Hv. rewrite Hs in Hv. simpl in Hv.
    rewrite !norm_index_in_range in Hv by (done || lia). simpl in Hv.
    change (Z.to_nat 0) with 0%nat in Hv. rewrite ravel_3 in Hv.
    change (0 * H + Z.to_nat i)%nat with (Z.to_nat i) in Hv.
    by rewrite Hl in Hv.
Qed.

Lemma shape_3 (d : ndarray V) (h wd : Z) :
  Z.of_nat <$> shape d = [1; h; wd] →
  shape d = [1%nat; Z.to_nat h; Z.to_nat wd] ∧ 0 ≤ h ∧ 0 ≤ wd.
Proof.
  destruct (shape d) as [|a [|b [|c [|]]]]; try done.
  simpl. intros [= Ha Hb Hc]. split; [|lia]. f_equal; [lia|].
  f_equal; [lia|]. f_equal; lia.
Qed.

Lemma stamped_mono (w : world V) (d : ndarray V) (name : string)
    (D D' : Z → Z → Prop) (w' : world V) :
  (∀ x y, 0 ≤ x < width (self w) → 0 ≤ y < height (self w) →
          (D' x y ↔ D x y)) →
  stamped w d name D w' → stamped w d name D' w'.
Proof.
  intros HD (Hs & Hdom & Hall & Hframe). unfold same_but in Hframe |- *.
  split; [done|]. split; [done|]. split.
  - intros x y c Hx Hy Hc HD'. apply Hall; try done. by apply HD.
  - intros c cell' Hc. destruct (Hframe c cell' Hc)
      as (cell & Hcell & Hp & Hi & Hn & Ht).
    exists cell. split; [done|]. split; [done|]. split; [done|].
    split; [done|]. destruct Ht as [?|(x & y & Hx & Hy & Hg & HDxy)];
      [by left|].
    right. exists x, y. split; [done|]. split; [done|]. split; [done|].
    by apply HD.
Qed.

(** One assignment of [apply_raster]. *)
Lemma stamped_step (w : world V) (d : ndarray V) (name : string)
    (D : Z → Z → Prop) (w' : world V) (x y : Z) :
  wf_layer w → wf_ndarray d →
  Z.of_nat <$> shape d = [1; height (self w); width (self w)] →
  name ∉ cell_properties →
  0 ≤ x < width (self w) → 0 ≤ y < height (self w) →
  stamped w d name D w' →
  ∃ w'',
    (c ← cells_at V x y;
     v ← lift (nd_item d [0; height (self w) - y - 1; x]);
     setattr' c name v) w' = (Ok tt, w'')
    ∧ stamped w d name (λ x' y', D x' y' ∨ (x' = x ∧ y' = y)) w''.
Proof.
  intros Hwf Hd Hshape Hname Hx Hy (Hself & Hdom & Hall & Hframe).
  unfold same_but in Hframe |- *.
  destruct (shape_3 _ _ _ Hshape) as (Hs & _ & _).
  destruct (grid_at_Some w Hwf x y Hx Hy) as [c Hc].
  assert (Hc' : grid_at w' x y = Some c).
  { unfold grid_at in Hc |- *. by rewrite Hself. }
  destruct (nd_item_3_wf d _ _ (height (self w) - y - 1) x Hd Hs)
    as [v Hv]; [lia | lia |].
  assert (Hlive : is_Some (heap w' !! c)).
  { apply elem_of_dom. rewrite Hdom. apply elem_of_dom.
    by eapply grid_at_alive. }
  destruct Hlive as [cell Hcell].
  unfold mbind, M_bind.
  rewrite (cells_at_grid w' x y c) by (done || lia).
  unfold lift at 1. rewrite Hv.
  rewrite (setattr_plain c name v cell w' Hname Hcell).
  eexists. split; [reflexivity|].
  split; [done|]. split.
  { cbn [heap]. rewrite dom_insert_lookup_L by eauto. done. }
  split.
  - intros x' y' c' Hx' Hy' Hgrid HD. cbn [heap].
    destruct (decide (c' = c)) as [->|Hne].
    + destruct (grid_at_inj w Hwf x' y' x y c) as [-> ->];
        try done; try lia.
      rewrite lookup_insert_eq. eexists _, v. split; [done|].
      split; [by simpl; rewrite lookup_insert_eq | done].
    + rewrite lookup_insert_ne by done.
      destruct HD as [HD|[-> ->]]; [by apply Hall | congruence].
  - intros c' cell'. cbn [heap].
    destruct (decide (c' = c)) as [->|Hne].
    + rewrite lookup_insert_eq. intros [= <-].
      destruct (Hframe c cell Hcell) as (cell0 & Hcell0 & Hp & Hi & Hn & _).
      exists cell0. split; [done|]. split; [done|]. split; [done|].
      split.
      * intros n Hne. simpl. rewrite lookup_insert_ne by done.
        by apply Hn.
      * right. exists x, y. split; [done|]. split; [done|].
        split; [done|]. by right.
    + rewrite lookup_insert_ne by done. intros Hc''.
      destruct (Hframe c' cell' Hc'')
        as (cell0 & Hcell0 & Hp & Hi & Hn & Ht).
      exists cell0. split; [done|]. split; [done|]. split; [done|].
      split; [done|].
      destruct Ht as [?|(x' & y' & ? & ? & ? & ?)]; [by left|].
      right. exists x', y'. split; [done|]. split; [done|].
      split; [done|]. by left.
Qed.

Lemma apply_raster_spec (d : ndarray V) (attr_name : option string)
    (w : world V) :
  wf_layer w → wf_ndarray d →
  Z.of_nat <$> shape d = [1; height (self w); width (self w)] →
  stored_name attr_name ∉ cell_properties →
  ∃ w', apply_raster' d attr_name w = (Ok tt, w')
        ∧ stamped w d (stored_name attr_name) (λ _ _, True) w'.
Proof.
  clear float64 garbage property_get dynamic_raster.
  intros Hwf Hd Hshape Hname.
  rewrite apply_raster_match by done.
  set (name := stored_name attr_name) in Hname |- *.
  match goal with |- context [for_each _ ?body ?s] =>
    destruct (for_each_inv
      (λ pre w', stamped w d name (λ x' _, x' ∈ pre) w')
      (range (width (self w))) body [] s) as (w' & Hrun & HI)
  end.
  { split; [done|]. split; [done|]. split.
    - by intros x y c _ _ _ ?%elem_of_nil.
    - intros c cell' Hc. exists cell'. split; [done|].
      split; [done|]. split; [done|]. split; [done|]. by left. }
  { intros pre x post w1 Heq HI. simpl in Heq.
    destruct (range_split _ _ _ _ Heq) as (Hx & _ & Hpre & Hpre').
    match goal with |- context [for_each _ ?body w1] =>
      destruct (for_each_inv
        (λ pre_y w', stamped w d name
                       (λ x' y', x' ∈ pre ∨ (x' = x ∧ y' ∈ pre_y)) w')
        (range (height (self w))) body [] w1) as (w2 & Hrun2 & HI2)
    end.
    { eapply stamped_mono; [|exact HI]. simpl.
      intros x' y' _ _. rewrite elem_of_nil. tauto. }
    { intros pre_y y post_y w2 Heqy HI2. simpl in Heqy.
      destruct (range_split _ _ _ _ Heqy) as (Hy & _ & _ & Hprey').
      destruct (stamped_step w d name _ w2 x y Hwf Hd Hshape Hname Hx Hy HI2)
        as (w3 & Hstep & HI3).
      exists w3. split; [exact Hstep|].
      eapply stamped_mono; [|exact HI3]. simpl.
      intros x' y' _ _. rewrite elem_of_app, list_elem_of_singleton.
      tauto. }
    exists w2. split; [exact Hrun2|].
    eapply stamped_mono; [|exact HI2]. simpl.
    intros x' y' _ Hy'. rewrite elem_of_app, list_elem_of_singleton.
    rewrite elem_of_range. tauto. }
  exists w'. split; [exact Hrun|].
  eapply stamped_mono; [|exact HI]. simpl.
  intros x' y' Hx' _. rewrite elem_of_range. tauto.
Qed.

Lemma stamped_wf (w : world V) (d : ndarray V) (name : string)
    (D : Z → Z → Prop) (w' : world V) :
  wf_layer w → stamped w d name D w' → wf_layer w'.
Proof.
  intros [? ? ? ? ? Halive] (Hs & Hdom & _).
  split; rewrite Hs; simpl; try done.
  intros c Hc. apply elem_of_dom. rewrite Hdom. apply elem_of_dom.
  by apply Halive.
Qed.

Lemma filled_mono (w : world V) (name : string) (D D' : Z → Z → Prop)
    (acc : ndarray float) :
  (∀ x y, 0 ≤ x < width (self w) → 0 ≤ y < height (self w) →
          D' x y → D x y) →
  filled w name D acc → filled w name D' acc.
Proof.
  intros HD (Hs & Hlen & Hall). split; [done|]. split; [done|].
  intros x y c Hx Hy Hc HD'. apply Hall; try done. by apply HD.
Qed.

(** One assignment of [get_raster]. *)
Lemma filled_step (w : world V) (name : string) (D : Z → Z → Prop)
    (acc : ndarray float) (x y : Z) :
  wf_layer w → name ∉ cell_properties → readable w name →
  0 ≤ x < width (self w) → 0 ≤ y < height (self w) →
  filled w name D acc →
  ∃ acc',
    (c ← cells_at V x y;
     v ← getattr' c name;
     f ← lift (float64 v);
     lift (nd_setitem acc [0; height (self w) - y - 1; x] f)) w
    = (Ok acc', w)
    ∧ filled w name (λ x' y', D x' y' ∨ (x' = x ∧ y' = y)) acc'.
Proof.
  intros Hwf Hname Hread Hx Hy (Hs & Hlen & Hall).
  destruct (grid_at_Some w Hwf x y Hx Hy) as [c Hc].
  destruct (Hread x y c Hx Hy Hc) as (cell & v & f & Hcell & Hv & Hf).
  unfold mbind, M_bind.
  rewrite (cells_at_grid w x y c) by (done || lia).
  rewrite (getattr_plain c name v cell w Hname Hcell Hv).
  unfold lift. rewrite Hf.
  rewrite (nd_setitem_3 acc _ _ _ _ f Hs) by lia.
  eexists. split; [reflexivity|].
  split; [done|]. split; [by cbn [data]; rewrite length_insert|].
  intros x' y' c' Hx' Hy' Hc' HD. cbn [data].
  set (H := Z.to_nat (height (self w))) in *.
  set (W := Z.to_nat (width (self w))) in *.
  replace (Z.to_nat (height (self w) - y - 1)) with (H - 1 - Z.to_nat y)%nat
    by lia.
  destruct (decide (((H - 1 - Z.to_nat y') * W + Z.to_nat x')%nat
                    = ((H - 1 - Z.to_nat y) * W + Z.to_nat x)%nat))
    as [Heq|Hne].
  - assert (Z.to_nat y' = Z.to_nat y ∧ Z.to_nat x' = Z.to_nat x)
      as [Hy'' Hx''].
    { assert ((H - 1 - Z.to_nat y') = (H - 1 - Z.to_nat y))%nat by nia.
      split; nia. }
    assert (x' = x) as -> by lia. assert (y' = y) as -> by lia.
    assert (c' = c) as -> by congruence.
    exists cell, v, f. split; [done|]. split; [done|]. split; [done|].
    apply list_lookup_insert_eq. rewrite Hlen. nia.
  - rewrite list_lookup_insert_ne by done.
    destruct HD as [HD|[-> ->]]; [by apply Hall | done].
Qed.

Lemma get_raster_spec (a : string) (w : world V) :
  wf_layer w →
  a ∉ _dynamic_variables → a ∈ _attributes (self w) →
  a ∉ cell_properties → readable w a →
  ∃ arr, get_raster' (Some a) w = (Ok (Bands arr), w)
         ∧ filled w a (λ _ _, True) arr.
Proof.
  intros Hwf Hdyn Hattr Hprop Hread.
  unfold get_raster, mbind at 1, M_bind at 1, get at 1.
  rewrite decide_False by done.
  rewrite decide_False.
  2:{ intros Hn. apply Hn. unfold attributes. by apply elem_of_union_l. }
  unfold np_empty. rewrite decide_True.
  2:{ repeat constructor; [lia | apply Hwf | apply Hwf]. }
  unfold mbind at 1, M_bind at 1, lift at 1. simpl imap. simpl for_fold.
  unfold mbind at 1, M_bind at 1.
  unfold mbind at 1, M_bind at 1.
  match goal with |- context [for_fold (range (width (self w))) ?d0 ?body w] =>
    destruct (for_fold_inv
      (λ pre acc w', w' = w ∧ filled w a (λ x' _, x' ∈ pre) acc)
      (range (width (self w))) body [] d0 w) as (arr & w' & Hrun & -> & HI)
  end.
  { split; [done|]. split; [done|]. split.
    - cbn [data]. rewrite length_fmap, length_seq. simpl. lia.
    - by intros x y c _ _ _ ?%elem_of_nil. }
  { intros pre x post acc w1 Heq [-> HI]. simpl in Heq.
    destruct (range_split _ _ _ _ Heq) as (Hx & _ & Hpre & Hpre').
    match goal with |- context [for_fold _ acc ?body w] =>
      destruct (for_fold_inv
        (λ pre_y acc' w',
           w' = w ∧ filled w a (λ x' y', x' ∈ pre ∨ (x' = x ∧ y' ∈ pre_y))
                      acc')
        (range (height (self w))) body [] acc w)
        as (acc2 & w2 & Hrun2 & -> & HI2)
    end.
    { split; [done|]. eapply filled_mono; [|exact HI]. simpl.
      intros x' y' _ _ [?|[_ ?%elem_of_nil]]; done. }
    { intros pre_y y post_y acc2 w2 Heqy [-> HI2]. simpl in Heqy.
      destruct (range_split _ _ _ _ Heqy) as (Hy & _ & _ & Hprey').
      destruct (filled_step w a _ acc2 x y Hwf Hprop Hread Hx Hy HI2)
        as (acc3 & Hstep & HI3).
      exists acc3, w. split; [exact Hstep|]. split; [done|].
      eapply filled_mono; [|exact HI3]. simpl.
      intros x' y' _ _ [?|[-> [?| ->%list_elem_of_singleton]%elem_of_app]].
      - left; by left.
      - left; right; done.
      - by right. }
    exists acc2, w. split; [exact Hrun2|]. split; [done|].
    eapply filled_mono; [|exact HI2]. simpl.
    intros x' y' _ Hy' [?| ->%list_elem_of_singleton]%elem_of_app.
    - by left.
    - right. split; [done|]. by apply elem_of_range. }
  exists arr. rewrite Hrun. split; [done|].
  eapply filled_mono; [|exact HI]. simpl.
  intros x' y' Hx' _ _. by apply elem_of_range.
Qed.


(** What [apply_raster] leaves behind, as far as later calls need it. *)
Lemma apply_raster_result (d : ndarray V) (attr_name : option string)
    (w : world V) :
  wf_layer w → wf_ndarray d →
  Z.of_nat <$> shape d = [1; height (self w); width (self w)] →
  stored_name attr_name ∉ cell_properties →
  ∃ w', apply_raster' d attr_name w = (Ok tt, w')
        ∧ stamped w d (stored_name attr_name) (λ _ _, True) w'
        ∧ wf_layer w'
        ∧ width (self w') = width (self w)
        ∧ height (self w') = height (self w)
        ∧ (∀ x y, grid_at w' x y = grid_at w x y)
        ∧ holds_band w' (stored_name attr_name) d.
Proof.
  clear float64 garbage property_get dynamic_raster _dynamic_variables.
  intros Hwf Hd Hshape Hprop.
  destruct (apply_raster_spec d attr_name w Hwf Hd Hshape Hprop)
    as (w' & Happly & Hst).
  pose proof (stamped_wf _ _ _ _ _ Hwf Hst) as Hwf'.
  exists w'. split; [done|]. split; [done|]. split; [done|].
  destruct Hst as (Hself & Hdom & Hall & _). simpl in Hself, Hall.
  assert (Hwd : width (self w') = width (self w)) by by rewrite Hself.
  assert (Hht : height (self w') = height (self w)) by by rewrite Hself.
  assert (Hgrid : ∀ x y, grid_at w' x y = grid_at w x y).
  { intros x y. unfold grid_at. by rewrite Hself. }
  split; [done|]. split; [done|]. split; [done|].
  intros x y c Hx Hy Hc. rewrite Hwd in Hx. rewrite Hht in Hy |- *.
  rewrite Hgrid in Hc. by apply Hall.
Qed.

(** The element of a band that a cell holds is one of its elements. *)
Lemma holds_band_readable (w : world V) (a : string) (d : ndarray V)
    (fs : list float) :
  Z.of_nat <$> shape d = [1; height (self w); width (self w)] →
  holds_band w a d →
  Forall2 (λ v f, float64 v = Ok f) (data d) fs →
  readable w a.
Proof.
  clear garbage property_get dynamic_raster _dynamic_variables
    cell_properties cell_cls_dict_len property_set.
  intros Hshape Hall Hconv x y c Hx Hy Hc.
  destruct (shape_3 _ _ _ Hshape) as (Hsd & Hh & Hw).
  destruct (Hall x y c Hx Hy Hc) as (cell & v & Hcell & Hv & Hitem).
  apply (nd_item_3_inv _ _ _ _ _ _ Hsd) in Hitem; [|lia|lia].
  destruct (Forall2_lookup_l _ _ _ _ _ Hconv Hitem) as (f & _ & Hf).
  by exists cell, v, f.
Qed.

(** An array read from cells that hold a band is the band, converted. *)
Lemma filled_holds_band (w : world V) (a : string) (arr : ndarray float)
    (d : ndarray V) (fs : list float) :
  wf_layer w → wf_ndarray d →
  Z.of_nat <$> shape d = [1; height (self w); width (self w)] →
  filled w a (λ _ _, True) arr → holds_band w a d →
  Forall2 (λ v f, float64 v = Ok f) (data d) fs →
  arr = NDArray (shape d) fs.
Proof.
  clear garbage property_get dynamic_raster _dynamic_variables
    cell_properties cell_cls_dict_len property_set.
  intros Hwf Hd Hshape (Hs & Hlen & Hfill) Hall Hconv.
  destruct (shape_3 _ _ _ Hshape) as (Hsd & Hh & Hw).
  cbv zeta in Hs, Hlen, Hfill.
  pose proof (Forall2_length _ _ _ Hconv) as Hlenfs.
  unfold wf_ndarray in Hd. rewrite Hsd in Hd. simpl in Hd.
  set (H := Z.to_nat (height (self w))) in *.
  set (W := Z.to_nat (width (self w))) in *.
  destruct arr as [sa da]. simpl in Hs, Hlen, Hfill. subst sa.
  rewrite Hsd. f_equal. apply list_eq. intros i.
  destruct (decide (i < H * W)%nat) as [Hi|Hi].
  - assert (HW : (0 < W)%nat) by nia.
    set (r := (i `div` W)%nat). set (x := (i `mod` W)%nat).
    assert (Hix : i = (r * W + x)%nat).
    { unfold r, x. rewrite Nat.mul_comm. apply Nat.div_mod_eq. }
    assert (Hx : (x < W)%nat) by (apply Nat.mod_upper_bound; lia).
    assert (Hr : (r < H)%nat).
    { apply Nat.Div0.div_lt_upper_bound. lia. }
    clearbody r x. subst i.
    destruct (grid_at_Some w Hwf (Z.of_nat x) (Z.of_nat (H - 1 - r)))
      as [c Hc]; [lia | lia |].
    destruct (Hfill (Z.of_nat x) (Z.of_nat (H - 1 - r)) c)
      as (cell & v & f & Hcell & Hv & Hf & Hda); [lia | lia | done | done |].
    destruct (Hall (Z.of_nat x) (Z.of_nat (H - 1 - r)) c)
      as (cell' & v' & Hcell' & Hv' & Hitem); [lia | lia | done |].
    assert (v' = v) as -> by congruence.
    apply (nd_item_3_inv _ H W) in Hitem; [|done|lia|lia].
    rewrite !Nat2Z.id in Hda.
    replace (H - 1 - (H - 1 - r))%nat with r in Hda by lia.
    replace (Z.to_nat (height (self w) - Z.of_nat (H - 1 - r) - 1)) with r
      in Hitem by lia.
    rewrite Nat2Z.id in Hitem.
    destruct (Forall2_lookup_l _ _ _ _ _ Hconv Hitem) as (f' & Hf' & Hcf).
    rewrite Hda, Hf'. congruence.
  - rewrite !lookup_ge_None_2; [done | lia | lia].
Qed.

(** Reading what was applied gives the band, converted to float64. *)
Lemma get_raster_of_band (d : ndarray V) (fs : list float) (a : string)
    (w : world V) :
  wf_layer w → wf_ndarray d →
  Z.of_nat <$> shape d = [1; height (self w); width (self w)] →
  a ∉ _dynamic_variables → a ∉ cell_properties →
  a ∈ _attributes (self w) → holds_band w a d →
  Forall2 (λ v f, float64 v = Ok f) (data d) fs →
  get_raster' (Some a) w = (Ok (Bands (NDArray (shape d) fs)), w).
Proof.
  intros Hwf Hd Hshape Hdyn Hprop Hattr Hall Hconv.
  destruct (get_raster_spec a w Hwf Hdyn Hattr Hprop)
    as (arr & Hget & Hfill); [by eapply holds_band_readable|].
  rewrite Hget. do 3 f_equal. by eapply filled_holds_band.
Qed.

Lemma holds_float64_readable (np_float64 : float → V) (w : world V)
    (a : string) :
  (∀ f, float64 (np_float64 f) = Ok f) →
  holds_float64 np_float64 w a → readable w a.
Proof.
  intros Hnp Hall x y c Hx Hy Hc.
  destruct (Hall x y c Hx Hy Hc) as (cell & f & Hcell & Hv).
  by exists cell, (np_float64 f), f.
Qed.

(** Reading a raster of float64 values and applying it again changes
    nothing. *)
Lemma get_raster_apply_raster (np_float64 : float → V) (a : string)
    (w : world V) :
  (∀ f, float64 (np_float64 f) = Ok f) →
  wf_layer w →
  a ∉ _dynamic_variables → a ∉ cell_properties →
  a ∈ _attributes (self w) → holds_float64 np_float64 w a →
  ∃ arr, get_raster' (Some a) w = (Ok (Bands arr), w)
         ∧ apply_raster' (NDArray (shape arr) (np_float64 <$> data arr))
             (Some a) w = (Ok tt, w).
Proof.
  intros Hnp Hwf Hdyn Hprop Hattr Hfloat.
  destruct (get_raster_spec a w Hwf Hdyn Hattr Hprop
              (holds_float64_readable np_float64 w a Hnp Hfloat))
    as (arr & Hget & Hs & Hlen & Hfill).
  exists arr. split; [done|].
  set (d := NDArray (shape arr) (np_float64 <$> data arr)).
  assert (Hshape : Z.of_nat <$> shape d
                   = [1; height (self w); width (self w)]).
  { unfold d. cbn [shape]. rewrite Hs. simpl. destruct Hwf as [? ? _ _ _ _].
    f_equal. f_equal; [lia|]. f_equal. lia. }
  assert (Hd : wf_ndarray d).
  { unfold wf_ndarray, d. cbn [shape data].
    rewrite length_fmap, Hlen, Hs. simpl. lia. }
  destruct (apply_raster_spec d (Some a) w Hwf Hd Hshape Hprop)
    as (w' & -> & Hself & Hdom & Hall & Hframe).
  simpl in Hself, Hall, Hframe. f_equal.
  destruct w as [hp s], w' as [hp' s']. simpl in *. f_equal.
  - apply map_eq. intros c.
    destruct (hp' !! c) as [cell'|] eqn:Hc'.
    + destruct (Hframe c cell' Hc')
        as (cell & Hc & Hp & Hi & Hn & Ht).
      rewrite Hc. f_equal.
      destruct cell as [p i at1], cell' as [p' i' at2].
      simpl in *. subst p' i'. f_equal. apply map_eq. intros n.
      destruct (decide (n = a)) as [->|Hne]; [|by apply Hn].
      destruct Ht as [?|(x & y & Hx & Hy & Hg & _)]; [done|].
      destruct (Hall x y c Hx Hy Hg I) as (cell1 & v & Hcell1 & Hv & Hitem).
      destruct (Hfill x y c Hx Hy Hg I)
        as (cell0 & v0 & f0 & Hcell0 & Hv0 & Hf0 & Hda).
      destruct (Hfloat x y c Hx Hy Hg) as (cell2 & f2 & Hcell2 & Hv2).
      rewrite Hc' in Hcell1. injection Hcell1 as <-.
      rewrite Hc in Hcell0. injection Hcell0 as <-.
      simpl in Hcell2, Hv2.
      rewrite Hc in Hcell2. injection Hcell2 as <-. simpl in *.
      apply (nd_item_3_inv d _ _ _ _ _ (Hs : shape d = _)) in Hitem;
        [|lia|lia].
      replace (Z.to_nat (height s - y - 1))
        with (Z.to_nat (height s) - 1 - Z.to_nat y)%nat in Hitem by lia.
      unfold d in Hitem. cbn [data] in Hitem.
      rewrite list_lookup_fmap, Hda in Hitem. simpl in Hitem.
      assert (f0 = f2) as ->.
      { rewrite Hv2 in Hv0. injection Hv0 as <-.
        rewrite Hnp in Hf0. congruence. }
      congruence.
    + symmetry. apply not_elem_of_dom. rewrite <- Hdom.
      by apply not_elem_of_dom.
  - rewrite Hself. destruct s as [wd ht cs at0]. simpl in *. f_equal.
    apply subseteq_union_1_L. by apply singleton_subseteq_l.
Qed.

(** C2, as amended.  Raster round trip: on a well-formed layer of
    height [h] and width [w], for an array [d] of shape [(1, h, w)]
    and an attribute name that is neither a dynamic variable nor a
    cell property, [apply_raster(d, attr_name=a)] followed by
    [get_raster(a)] returns the float64 array of the elements of [d]
    converted to float64, provided each of them converts.  For an
    array of float64 values this is an array with the elements of
    [d], each at its place.  On float64 values the two mappings are
    inverse to each other: when every cell holds a float64 under the
    attribute, applying the array that [get_raster(a)] returns leaves
    the layer and its cells as they are. *)
Theorem raster_round_trip (d : ndarray V) (a : string) (w : world V) :
  wf_layer w → wf_ndarray d →
  Z.of_nat <$> shape d = [1; height (self w); width (self w)] →
  a ∉ _dynamic_variables → a ∉ cell_properties →
  (∀ fs, Forall2 (λ v f, float64 v = Ok f) (data d) fs →
     ∃ w', apply_raster' d (Some a) w = (Ok tt, w')
           ∧ get_raster' (Some a) w'
             = (Ok (Bands (NDArray (shape d) fs)), w'))
  ∧ (∀ np_float64 : float → V,
       (∀ f, float64 (np_float64 f) = Ok f) →
       (∀ fs, data d = np_float64 <$> fs →
          ∃ w', apply_raster' d (Some a) w = (Ok tt, w')
                ∧ get_raster' (Some a) w'
                  = (Ok (Bands (NDArray (shape d) fs)), w'))
       ∧ (a ∈ _attributes (self w) → holds_float64 np_float64 w a →
          ∃ arr, get_raster' (Some a) w = (Ok (Bands arr), w)
                 ∧ apply_raster'
                     (NDArray (shape arr) (np_float64 <$> data arr))
                     (Some a) w = (Ok tt, w))).
Proof.
  intros Hwf Hd Hshape Hdyn Hprop.
  assert (Hgen : ∀ fs, Forall2 (λ v f, float64 v = Ok f) (data d) fs →
     ∃ w', apply_raster' d (Some a) w = (Ok tt, w')
           ∧ get_raster' (Some a) w'
             = (Ok (Bands (NDArray (shape d) fs)), w')).
  { intros fs Hconv.
    destruct (apply_raster_result d (Some a) w Hwf Hd Hshape Hprop)
      as (w' & Happly & Hst & Hwf' & Hwd & Hht & _ & Hband).
    exists w'. split; [exact Happly|].
    apply get_raster_of_band; try done.
    - by rewrite Hwd, Hht.
    - destruct Hst as (-> & _). simpl.
      by apply elem_of_union_l, elem_of_singleton. }
  split; [exact Hgen|].
  intros np_float64 Hnp. split.
  - intros fs Hdata. apply Hgen. rewrite Hdata.
    apply Forall2_fmap_l, Forall_Forall2_diag, Forall_forall.
    intros f _. apply Hnp.
  - intros Hattr Hfloat. by apply get_raster_apply_raster.
Qed.

End raster.

(** An int64 beyond [2^53] does not come back: read back, the band
    whose element is [2^53 + 1] is the float64 array with the element
    [2^53], the same array as for the band whose element is [2^53]. *)
Lemma raster_round_trip_rounds :
  let read_back d :=
    (get_raster scalar float64_of_scalar ∅ ∅ zeros no_property_get
       no_dynamic_raster (Some "elevation")
       (apply_raster scalar ∅ 0 no_property_set d (Some "elevation")
          one_cell).2).1 in
  odd_band ≠ even_band
  ∧ read_back odd_band
    = Ok (Bands (NDArray [1; 1; 1]%nat [9007199254740992%float]))
  ∧ read_back even_band = read_back odd_band.
Proof. split; [by intros [=] | split; reflexivity]. Qed.

Lemma raster_round_trip_witness :
  ∃ w',
    apply_raster scalar ∅ 0 no_property_set two_rows (Some "elevation")
      (__init__ scalar 3 2 empty_world).2 = (Ok tt, w')
    ∧ get_raster scalar float64_of_scalar ∅ ∅ zeros no_property_get
        no_dynamic_raster (Some "elevation") w'
      = (Ok (Bands (NDArray [1; 2; 3]%nat
                      [11; 12; 13; 21.5; 22.5; 23.5]%float)), w').
Proof.
  destruct (raster_round_trip (V := scalar) float64_of_scalar ∅ ∅ 0 zeros
           no_property_get no_property_set no_dynamic_raster two_rows
           "elevation" (__init__ scalar 3 2 empty_world).2)
    as [_ Hfloat].
  - apply (init_wf 3 2 empty_world); [lia | lia | by vm_compute].
  - reflexivity.
  - reflexivity.
  - apply not_elem_of_empty.
  - apply not_elem_of_empty.
  - destruct (Hfloat Float64) as [Hround _]; [done|].
    apply (Hround [11; 12; 13; 21.5; 22.5; 23.5]%float). reflexivity.
Defined.


End NatureSpec.
